(** * Trend statistics of the stock screening script

    A shallow embedding of the statistics pipeline of
    [SCRIPT_stock_screening.py]: the numeric helpers, the five metric
    calculators and the value formatter [fmt_val].

    Conventions of the embedding.
    - A Python [float] is a real number: arithmetic is exact, there is no
      overflow, no NaN and no signed zero.  [round(x, n)] rounds the exact
      value half-to-even on its [n]-th decimal.
    - [None] is [option]'s [None].
    - A Python exception is a [Raise] of the result type [res]; list
      indexing, dictionary lookup, division and power are the operations
      that can raise, and they are written with the guards the source has.
    - A JSON object used as a dictionary is a [gmap]; a JSON array is a
      [list]. *)

From Stdlib Require Import Reals Lra Lia ZArith Ascii DecimalString.
From stdpp Require Import base decidable option list gmap strings sorting.

Local Open Scope R_scope.

(** ** Decidable comparisons on the reals *)

Global Instance Rlt_decision : RelDecision Rlt := Rlt_dec.
Global Instance Rle_decision : RelDecision Rle := Rle_dec.
Global Instance Rgt_decision : RelDecision Rgt := Rgt_dec.
Global Instance Rge_decision : RelDecision Rge := Rge_dec.
Global Instance Req_decision : EqDecision R := Req_dec_T.

(** ** Results and exceptions *)

Inductive exn : Set :=
  | IndexError
  | KeyError
  | ZeroDivisionError
  | TypeError
  | AttributeError.

Inductive res (A : Type) : Type :=
  | Ok (a : A)
  | Raise (e : exn).
Global Arguments Ok {A} a.
Global Arguments Raise {A} e.

Global Instance res_ret : MRet res := λ A, Ok.
Global Instance res_bind : MBind res := λ A B f m,
  match m with
  | Ok a => f a
  | Raise e => Raise e
  end.

(** [returns m] holds when [m] ends without an exception. *)
Definition returns {A} (m : res A) : Prop := ∃ a, m = Ok a.

(** ** Python built-ins used by the script *)

(** [l[i]], negative indices counting from the end. *)
Definition index {A} (l : list A) (i : Z) : res A :=
  let j := if decide (i < 0)%Z then (i + Z.of_nat (length l))%Z else i in
  if decide (j < 0)%Z then Raise IndexError
  else match l !! Z.to_nat j with
       | Some a => Ok a
       | None => Raise IndexError
       end.

(** [d[k]] on a dictionary. *)
Definition getitem {A} (d : gmap string A) (k : string) : res A :=
  match d !! k with
  | Some a => Ok a
  | None => Raise KeyError
  end.

(** [x / y] on floats. *)
Definition div_float (x y : R) : res R :=
  if decide (y = 0) then Raise ZeroDivisionError else Ok (x / y).

(** [x ** y] on floats.  A negative base with a fractional exponent gives
    a complex number in Python, which [round] and the comparisons [<], [>]
    reject with a [TypeError]: every use in the script feeds the power to
    one of them. *)
Definition pow_float (x y : R) : res R :=
  if decide (0 < x) then Ok (Rpower x y)
  else if decide (x = 0) then
    if decide (0 < y) then Ok 0
    else if decide (y = 0) then Ok 1
    else Raise ZeroDivisionError
  else if decide (IZR (Int_part y) = y) then Ok (powerRZ x (Int_part y))
  else Raise TypeError.

(** [sum(l)]: a left fold from 0. *)
Definition sum_float (l : list R) : R := foldl Rplus 0 l.

(** Rounding half to even, to an integer. *)
Definition round_half_even (x : R) : Z :=
  let f := Int_part x in
  let d := x - IZR f in
  if decide (d < 1 / 2) then f
  else if decide (1 / 2 < d) then (f + 1)%Z
  else if Z.even f then f else (f + 1)%Z.

(** [round(x, ndigits)]. *)
Definition round_float (x : R) (ndigits : nat) : R :=
  IZR (round_half_even (x * 10 ^ ndigits)) / 10 ^ ndigits.

(** [max(l)] and [min(l)] of a non-empty list: the first of equal
    elements is kept. *)
Definition max_float (x : R) (l : list R) : R :=
  foldl (λ m y, if decide (y > m) then y else m) x l.
Definition min_float (x : R) (l : list R) : R :=
  foldl (λ m y, if decide (y < m) then y else m) x l.

(** [enumerate(l)], counting from [n]. *)
Fixpoint enumerate_from {A} (n : nat) (l : list A) : list (nat * A) :=
  match l with
  | [] => []
  | x :: l => (n, x) :: enumerate_from (S n) l
  end.
Definition enumerate {A} (l : list A) : list (nat * A) := enumerate_from 0 l.

(** [[v for v in values if v is not None]] *)
Definition clean_values (values : list (option R)) : list R :=
  omap (λ v : option R, v) values.

(** [[(i, v) for i, v in enumerate(values) if v is not None]] *)
Definition clean_indexed (values : list (option R)) : list (nat * R) :=
  omap (λ p : nat * option R, pair p.1 <$> p.2) (enumerate values).

(** Truth value of an optional float: [None] and [0.0] are false. *)
Definition truthy (o : option R) : Prop :=
  match o with
  | Some x => x ≠ 0
  | None => False
  end.
Global Instance truthy_dec o : Decision (truthy o).
Proof. destruct o; simpl; apply _. Defined.

(** ** Helper functions *)

(** A value as the JSON payload holds it, as far as [safe_float] can tell
    values apart: [null], a string, or a number. *)
Inductive pyval : Type :=
  | PNone
  | PStr (s : string)
  | PNum (x : R).
Global Instance pyval_eq_dec : EqDecision pyval.
Proof. solve_decision. Defined.

(** [d.get(k)] on a dictionary of payload values. *)
Definition get (d : gmap string pyval) (k : string) : pyval :=
  default PNone (d !! k).

Section helpers.
(** [float(s)] on a string, [None] when it raises [ValueError]. *)
Variable float_of_str : string → option R.

Definition safe_float (value : pyval) (dflt : option R) : option R :=
  match value with
  | PNone => dflt
  | PStr s =>
      if decide (s = "None" ∨ s = "") then dflt
      else match float_of_str s with
           | Some x => Some x
           | None => dflt
           end
  | PNum x => Some x
  end.
End helpers.

Definition safe_divide (num denom dflt : option R) : res (option R) :=
  match num, denom with
  | Some n, Some d =>
      if decide (d = 0) then Ok dflt
      else q ← div_float n d; Ok (Some q)
  | _, _ => Ok dflt
  end.

Definition pct (num denom dflt : option R) : res (option R) :=
  result ← safe_divide num denom dflt;
  match result with
  | Some r => Ok (Some (round_float (r * 100) 2))
  | None => Ok dflt
  end.

Definition calculate_cagr (values : list (option R)) : res (option R) :=
  let clean := clean_values values in
  if decide (length clean < 2)%nat then Ok None else
  first ← index clean 0;
  if decide (first <= 0) then Ok None else
  final ← index clean (-1);
  if decide (final <= 0) then Ok None else
  let years := (length clean - 1)%nat in
  ratio ← div_float final first;
  expo ← div_float 1 (INR years);
  growth ← pow_float ratio expo;
  Ok (Some (round_float ((growth - 1) * 100) 2)).

Definition calculate_avg (values : list (option R)) : res (option R) :=
  let clean := clean_values values in
  match clean with
  | [] => Ok None
  | _ => avg ← div_float (sum_float clean) (INR (length clean));
         Ok (Some (round_float avg 2))
  end.

Definition calculate_cv (values : list (option R)) : res (option R) :=
  let clean := clean_values values in
  if decide (length clean < 2)%nat then Ok None else
  avg ← div_float (sum_float clean) (INR (length clean));
  if decide (avg = 0) then Ok None else
  variance ← div_float (sum_float ((λ x, (x - avg) ^ 2) <$> clean))
                       (INR (length clean));
  std_dev ← pow_float variance 0.5;
  cv ← div_float std_dev (Rabs avg);
  Ok (Some (round_float (cv * 100) 2)).

Definition calculate_slope (values : list (option R)) : res (option R) :=
  let clean := clean_indexed values in
  if decide (length clean < 2)%nat then Ok None else
  let n := INR (length clean) in
  let sum_x := sum_float ((λ p, INR p.1) <$> clean) in
  let sum_y := sum_float ((λ p, p.2) <$> clean) in
  let sum_xy := sum_float ((λ p, INR p.1 * p.2) <$> clean) in
  let sum_x2 := sum_float ((λ p, INR p.1 * INR p.1) <$> clean) in
  let denominator := n * sum_x2 - sum_x * sum_x in
  if decide (denominator = 0) then Ok None else
  slope ← div_float (n * sum_xy - sum_x * sum_y) denominator;
  Ok (Some (round_float slope 2)).

Record delta : Type := Delta {
  absolute : option R;
  percent : option R
}.

Definition calculate_recent_delta (values : list (option R)) : res delta :=
  let clean := clean_values values in
  if decide (length clean < 2)%nat then Ok (Delta None None) else
  recent ← index clean (-1);
  prior ← index clean (-2);
  let absolute := round_float (recent - prior) 2 in
  percent ← (if decide (prior ≠ 0)
             then q ← div_float (recent - prior) (Rabs prior);
                  Ok (Some (round_float (q * 100) 2))
             else Ok None);
  Ok (Delta (Some absolute) percent).

Definition detect_outliers (values : list (option R)) : res (list nat) :=
  let clean := clean_indexed values in
  if decide (length clean < 3)%nat then Ok [] else
  let vals := clean.*2 in
  mean ← div_float (sum_float vals) (INR (length vals));
  variance ← div_float (sum_float ((λ x, (x - mean) ^ 2) <$> vals))
                       (INR (length vals));
  std_dev ← pow_float variance 0.5;
  let lower := mean - 2 * std_dev in
  let upper := mean + 2 * std_dev in
  Ok ((filter (λ p, p.2 < lower ∨ p.2 > upper) clean).*1).

(** [round(((a - b) / d) * 100, 2)], the percentage change the calculators
    write out in line. *)
Definition pct_change (a b d : R) : res R :=
  q ← div_float (a - b) d;
  Ok (round_float (q * 100) 2).

(** ** Payloads *)

(** An entry of an API sequence: a JSON object of scalars. *)
Abbreviation entry := (gmap string pyval).

(** [entry.get('fiscalDateEnding', '')], as the string the slicing and
    [startswith] need: any other value makes them raise. *)
Definition date_of (e : entry) (err : exn) : res string :=
  match e !! "fiscalDateEnding" with
  | None => Ok ""
  | Some (PStr s) => Ok s
  | Some _ => Raise err
  end.

(** [s[:4]] and [s[5:7]] *)
Definition year_part (s : string) : string := String.substring 0 4 s.
Definition month_part (s : string) : string := String.substring 5 2 s.

(** The [EARNINGS] payload; a key that is missing reads as [[]]. *)
Record earnings : Type := Earnings {
  quarterlyEarnings : list entry;
  annualEarnings : list entry
}.

(** The [INCOME_STATEMENT] payload. *)
Record income : Type := Income {
  annualReports : list entry;
  quarterlyReports : list entry
}.

(** The [TIME_SERIES_MONTHLY_ADJUSTED] payload: the object under
    ['Monthly Adjusted Time Series'], from date to the month's record
    (empty when the key is missing). *)
Abbreviation time_series := (gmap string entry).

Definition YEARS_TO_ANALYZE : nat := 5.

(** ** Records returned by the calculators *)

Module Price.
Record stats : Type := Stats {
  current : R;
  current_date : string;
  mean_5yr : option R;
  cagr_5yr : option R;
  cv : option R;
  slope : option R;
  vs_3mo_pct : option R;
  vs_yoy_pct : option R;
  high_52w : option R;
  low_52w : option R;
  vs_52w_high_pct : option R;
  vs_52w_low_pct : option R;
  months_of_data : nat;
  annual_years : list string;
  annual_values : list R;
  annual_recent_delta : delta;
  annual_outliers : list string
}.
End Price.

Record beat_miss : Type := BeatMiss {
  bm_date : pyval;
  bm_reported : R;
  bm_estimated : R;
  bm_surprise : R;
  bm_surprise_pct : option R
}.

Module Eps.
Record stats : Type := Stats {
  latest : R;
  latest_date : pyval;
  ttm : option R;
  vs_prev_q_pct : option R;
  vs_yoy_pct : option R;
  mean_5yr : option R;
  cagr_5yr : option R;
  cv : option R;
  slope : option R;
  recent_delta : delta;
  outlier_years : list string;
  annual_years : list string;
  annual_values : list R;
  years_of_data : nat;
  beat_miss_history : list beat_miss
}.
End Eps.

Module Revenue.
Record stats : Type := Stats {
  latest : R;
  latest_year : option string;
  vs_yoy_pct : option R;
  vs_prev_q_pct : option R;
  mean_5yr : option R;
  cagr_5yr : option R;
  cv : option R;
  slope : option R;
  recent_delta : delta;
  outlier_years : list string;
  annual_years : list string;
  annual_values : list R;
  years_of_data : nat;
  ytd_annualized : option R;
  ytd_num_quarters : nat;
  quarterly_latest : option R;
  quarterly_latest_date : pyval
}.
End Revenue.

Module Margin.
Record stats : Type := Stats {
  latest : R;
  latest_year : option string;
  vs_yoy_pct : option R;
  vs_prev_q_pct : option R;
  mean_5yr : option R;
  cagr_5yr : option R;
  cv : option R;
  slope : option R;
  recent_delta : delta;
  outlier_years : list string;
  annual_years : list string;
  annual_values : list R;
  years_of_data : nat;
  ytd_margin : option R;
  ytd_num_quarters : nat
}.
End Margin.

Module Pe.
Record stats : Type := Stats {
  trailing_pe : option R;
  current_price : R;
  ttm_eps : option R;
  mean_5yr : option R;
  cagr_5yr : option R;
  cv : option R;
  slope : option R;
  vs_yoy_pct : option R;
  vs_5yr_avg_pct : option R;
  recent_delta : delta;
  outlier_years : list string;
  annual_years : list string;
  annual_values : list R;
  years_of_data : nat
}.
End Pe.

(** [[years[i] for i in detect_outliers(values)] if values else []] *)
Definition outlier_labels (years : list string) (values : list R)
    : res (list string) :=
  match values with
  | [] => Ok []
  | _ => out ← detect_outliers (Some <$> values);
         mapM (λ i : nat, index years (Z.of_nat i)) out
  end.

(** Orders of [sort(key=lambda x: x[0])], descending with [reverse=True].
    The keys sorted are the keys of one dictionary, hence distinct. *)
Definition date_asc (a b : string * R) : Prop := String.le a.1 b.1.
Definition date_desc (a b : string * R) : Prop := String.le b.1 a.1.
Global Instance date_asc_dec : RelDecision date_asc.
Proof. intros a b. unfold date_asc. apply _. Defined.
Global Instance date_desc_dec : RelDecision date_desc.
Proof. intros a b. unfold date_desc. apply _. Defined.

(** [dict(zip(keys, values))]: a later pair overwrites an earlier one. *)
Definition dict_of_zip (keys : list string) (values : list R)
    : gmap string R :=
  foldl (λ d p, <[p.1 := p.2]> d) ∅ (zip keys values).

(** [sorted(d.keys())] *)
Definition sorted_keys (d : gmap string R) : list string :=
  merge_sort String.le (elements (dom d)).

(** ** The calculators *)

Section calculators.
Variable float_of_str : string → option R.

Definition field (e : entry) (k : string) : option R :=
  safe_float float_of_str (get e k) None.

(** *** Price *)

(** The months with an adjusted close, newest first. *)
Definition monthly_closes (ts : time_series) : list (string * R) :=
  merge_sort date_desc
    (omap (λ p : string * entry, pair p.1 <$> field p.2 "5. adjusted close")
          (map_to_list ts)).

(** The December closes, by year. *)
Definition december_closes (monthly : list (string * R)) : gmap string R :=
  foldl (λ annual_prices p,
           if decide (month_part p.1 = "12")
           then <[year_part p.1 := p.2]> annual_prices
           else annual_prices)
        ∅ (merge_sort date_asc monthly).

Definition calculate_price_stats (price_data : option time_series)
    : res (option Price.stats) :=
  match price_data with
  | None => Ok None
  | Some ts =>
  if decide (ts = ∅) then Ok None else
  let monthly := monthly_closes ts in
  if decide (length monthly < 2)%nat then Ok None else
  let monthly := take 60 monthly in
  let closes := monthly.*2 in
  let dates := monthly.*1 in
  current ← index closes 0;
  vs_3mo ← (if decide (3 < length closes)%nat
            then c ← index closes 3;
                 if decide (c ≠ 0)
                 then r ← pct_change current c c; Ok (Some r)
                 else Ok None
            else Ok None);
  vs_yoy ← (if decide (12 < length closes)%nat
            then c ← index closes 12;
                 if decide (c ≠ 0)
                 then r ← pct_change current c c; Ok (Some r)
                 else Ok None
            else Ok None);
  let last_12 := take (12 `min` length closes) closes in
  let high_52w := match last_12 with
                  | [] => None
                  | x :: l => Some (max_float x l)
                  end in
  let low_52w := match last_12 with
                 | [] => None
                 | x :: l => Some (min_float x l)
                 end in
  let closes_chrono := reverse closes in
  let annual_prices := december_closes monthly in
  date0 ← index dates 0;
  let current_year := year_part date0 in
  let annual_prices :=
    if decide (current_year ∈ dom annual_prices) then annual_prices
    else <[current_year := current]> annual_prices in
  let keys := sorted_keys annual_prices in
  let sorted_years := drop (length keys - YEARS_TO_ANALYZE) keys in
  annual_values ← mapM (getitem annual_prices) sorted_years;
  current_date ← index dates 0;
  mean_5yr ← calculate_avg (Some <$> closes_chrono);
  cagr_5yr ← calculate_cagr (Some <$> closes_chrono);
  cv ← calculate_cv (Some <$> closes_chrono);
  slope ← calculate_slope (Some <$> closes_chrono);
  vs_52w_high_pct ← (match high_52w with
                     | Some h => if decide (h ≠ 0)
                                 then r ← pct_change current h h; Ok (Some r)
                                 else Ok None
                     | None => Ok None
                     end);
  vs_52w_low_pct ← (match low_52w with
                    | Some l => if decide (l ≠ 0)
                                then r ← pct_change current l l; Ok (Some r)
                                else Ok None
                    | None => Ok None
                    end);
  annual_recent_delta ← calculate_recent_delta (Some <$> annual_values);
  annual_outliers ← outlier_labels sorted_years annual_values;
  Ok (Some {|
    Price.current := current;
    Price.current_date := current_date;
    Price.mean_5yr := mean_5yr;
    Price.cagr_5yr := cagr_5yr;
    Price.cv := cv;
    Price.slope := slope;
    Price.vs_3mo_pct := vs_3mo;
    Price.vs_yoy_pct := vs_yoy;
    Price.high_52w := high_52w;
    Price.low_52w := low_52w;
    Price.vs_52w_high_pct := vs_52w_high_pct;
    Price.vs_52w_low_pct := vs_52w_low_pct;
    Price.months_of_data := length closes;
    Price.annual_years := sorted_years;
    Price.annual_values := annual_values;
    Price.annual_recent_delta := annual_recent_delta;
    Price.annual_outliers := annual_outliers
  |})
  end.

(** *** Annual series shared by EPS, revenue and margin *)

(** One turn of the loop over [annual[:YEARS_TO_ANALYZE]]: the year label
    and the value, when both are there. *)
Definition annual_point (value : entry → res (option R)) (e : entry)
    : res (option (string * R)) :=
  v ← value e;
  d ← date_of e TypeError;
  let year := year_part d in
  match v with
  | Some x => if decide (year ≠ "") then Ok (Some (year, x)) else Ok None
  | None => Ok None
  end.

(** The whole loop followed by the two [reverse()]: the points in
    chronological order when the payload lists them newest first. *)
Definition annual_series (value : entry → res (option R))
    (entries : list entry) : res (list (string * R)) :=
  pts ← mapM (annual_point value) (take YEARS_TO_ANALYZE entries);
  Ok (reverse (omap (λ o : option (string * R), o) pts)).

(** [[r for r in quarterly_reports
      if r.get('fiscalDateEnding', '').startswith(current_year)]] *)
Definition ytd_filter (current_year : string) (reports : list entry)
    : res (list entry) :=
  marks ← mapM (λ r : entry,
                  d ← date_of r AttributeError;
                  Ok (if String.prefix current_year d then Some r else None))
               reports;
  Ok (omap (λ o : option entry, o) marks).

(** [safe_float(r.get(k, 0)) or 0] *)
Definition field_or_zero (e : entry) (k : string) : R :=
  default 0 (safe_float float_of_str (default (PNum 0) (e !! k)) None).

(** *** EPS *)

(** The change of the latest EPS against the quarter at position [k]. *)
Definition eps_change (quarterly : list entry) (latest_eps : R) (k : nat)
    : res (option R) :=
  if decide (k < length quarterly)%nat
  then q ← index quarterly (Z.of_nat k);
       match field q "reportedEPS" with
       | Some e => if decide (e ≠ 0)
                   then r ← pct_change latest_eps e (Rabs e); Ok (Some r)
                   else Ok None
       | None => Ok None
       end
  else Ok None.

(** Trailing twelve months: the last four quarters, all of them reported. *)
Definition ttm_of (quarterly : list entry) : option R :=
  if decide (4 ≤ length quarterly)%nat
  then let ttm_values := (λ q, field q "reportedEPS") <$> take 4 quarterly in
       if decide (Forall (λ v, v ≠ None) ttm_values)
       then Some (round_float (sum_float (clean_values ttm_values)) 2)
       else None
  else None.

Definition beat_miss_of (q : entry) : res (option beat_miss) :=
  match field q "reportedEPS", field q "estimatedEPS" with
  | Some reported, Some estimated =>
      let surprise := round_float (reported - estimated) 4 in
      surprise_pct ← (if decide (estimated ≠ 0)
                      then r ← pct_change reported estimated (Rabs estimated);
                           Ok (Some r)
                      else Ok None);
      Ok (Some (BeatMiss (get q "fiscalDateEnding") reported estimated
                         surprise surprise_pct))
  | _, _ => Ok None
  end.

Definition calculate_eps_stats (earnings_data : option earnings)
    : res (option Eps.stats) :=
  match earnings_data with
  | None => Ok None
  | Some data =>
  let quarterly := quarterlyEarnings data in
  let annual := annualEarnings data in
  if decide (quarterly = [] ∨ (length quarterly < 2)%nat) then Ok None else
  q0 ← index quarterly 0;
  match field q0 "reportedEPS" with
  | None => Ok None
  | Some latest_eps =>
  vs_prev_q ← eps_change quarterly latest_eps 1;
  vs_yoy ← eps_change quarterly latest_eps 4;
  let ttm_eps := ttm_of quarterly in
  series ← annual_series (λ e, Ok (field e "reportedEPS")) annual;
  let annual_eps := series.*2 in
  let annual_years := series.*1 in
  bm ← mapM beat_miss_of (take 4 quarterly);
  let beat_miss := omap (λ o : option beat_miss, o) bm in
  q0' ← index quarterly 0;
  mean_5yr ← calculate_avg (Some <$> annual_eps);
  cagr_5yr ← calculate_cagr (Some <$> annual_eps);
  cv ← calculate_cv (Some <$> annual_eps);
  slope ← calculate_slope (Some <$> annual_eps);
  recent_delta ← calculate_recent_delta (Some <$> annual_eps);
  outlier_years ← outlier_labels annual_years annual_eps;
  Ok (Some {|
    Eps.latest := latest_eps;
    Eps.latest_date := get q0' "fiscalDateEnding";
    Eps.ttm := ttm_eps;
    Eps.vs_prev_q_pct := vs_prev_q;
    Eps.vs_yoy_pct := vs_yoy;
    Eps.mean_5yr := mean_5yr;
    Eps.cagr_5yr := cagr_5yr;
    Eps.cv := cv;
    Eps.slope := slope;
    Eps.recent_delta := recent_delta;
    Eps.outlier_years := outlier_years;
    Eps.annual_years := annual_years;
    Eps.annual_values := annual_eps;
    Eps.years_of_data := length annual_eps;
    Eps.beat_miss_history := beat_miss
  |})
  end
  end.

(** *** Revenue *)

Section income.
(** [str(datetime.now().year)] *)
Variable current_year : string.

Definition calculate_revenue_stats (income_data : option income)
    : res (option Revenue.stats) :=
  match income_data with
  | None => Ok None
  | Some data =>
  let annual_reports := annualReports data in
  let quarterly_reports := quarterlyReports data in
  if decide (annual_reports = []) then Ok None else
  series ← annual_series (λ r, Ok (field r "totalRevenue")) annual_reports;
  let annual_rev := series.*2 in
  let annual_years := series.*1 in
  if decide (length annual_rev < 2)%nat then Ok None else
  latest ← index annual_rev (-1);
  vs_yoy ← (if decide (2 ≤ length annual_rev)%nat
            then prior ← index annual_rev (-2);
                 if decide (prior ≠ 0)
                 then recent ← index annual_rev (-1);
                      r ← pct_change recent prior (Rabs prior); Ok (Some r)
                 else Ok None
            else Ok None);
  vs_prev_q ← (if decide (2 ≤ length quarterly_reports)%nat
               then r0 ← index quarterly_reports 0;
                    let q_latest := field r0 "totalRevenue" in
                    r1 ← index quarterly_reports 1;
                    let q_prev := field r1 "totalRevenue" in
                    match q_latest, q_prev with
                    | Some l, Some p =>
                        if decide (l ≠ 0 ∧ p ≠ 0)
                        then r ← pct_change l p (Rabs p); Ok (Some r)
                        else Ok None
                    | _, _ => Ok None
                    end
               else Ok None);
  ytd_quarters ← ytd_filter current_year quarterly_reports;
  ytd_annualized ← (match ytd_quarters with
                    | [] => Ok None
                    | _ =>
                      let ytd_sum :=
                        sum_float ((λ r, field_or_zero r "totalRevenue")
                                     <$> ytd_quarters) in
                      f ← div_float 4 (INR (length ytd_quarters));
                      Ok (Some (ytd_sum * f))
                    end);
  latest_year ← (match annual_years with
                 | [] => Ok None
                 | _ => y ← index annual_years (-1); Ok (Some y)
                 end);
  mean_5yr ← calculate_avg (Some <$> annual_rev);
  cagr_5yr ← calculate_cagr (Some <$> annual_rev);
  cv ← calculate_cv (Some <$> annual_rev);
  slope ← calculate_slope (Some <$> annual_rev);
  recent_delta ← calculate_recent_delta (Some <$> annual_rev);
  outlier_years ← outlier_labels annual_years annual_rev;
  quarterly_latest ← (match quarterly_reports with
                      | [] => Ok None
                      | _ => r0 ← index quarterly_reports 0;
                             Ok (field r0 "totalRevenue")
                      end);
  quarterly_latest_date ← (match quarterly_reports with
                           | [] => Ok PNone
                           | _ => r0 ← index quarterly_reports 0;
                                  Ok (get r0 "fiscalDateEnding")
                           end);
  Ok (Some {|
    Revenue.latest := latest;
    Revenue.latest_year := latest_year;
    Revenue.vs_yoy_pct := vs_yoy;
    Revenue.vs_prev_q_pct := vs_prev_q;
    Revenue.mean_5yr := mean_5yr;
    Revenue.cagr_5yr := cagr_5yr;
    Revenue.cv := cv;
    Revenue.slope := slope;
    Revenue.recent_delta := recent_delta;
    Revenue.outlier_years := outlier_years;
    Revenue.annual_years := annual_years;
    Revenue.annual_values := annual_rev;
    Revenue.years_of_data := length annual_rev;
    Revenue.ytd_annualized := ytd_annualized;
    Revenue.ytd_num_quarters := length ytd_quarters;
    Revenue.quarterly_latest := quarterly_latest;
    Revenue.quarterly_latest_date := quarterly_latest_date
  |})
  end.

(** *** Operating margin *)

(** [pct(safe_float(r.get('operatingIncome')), safe_float(r.get('totalRevenue')))] *)
Definition margin_of (r : entry) : res (option R) :=
  pct (field r "operatingIncome") (field r "totalRevenue") None.

Definition calculate_margin_stats (income_data : option income)
    : res (option Margin.stats) :=
  match income_data with
  | None => Ok None
  | Some data =>
  let annual_reports := annualReports data in
  let quarterly_reports := quarterlyReports data in
  if decide (annual_reports = []) then Ok None else
  series ← annual_series margin_of annual_reports;
  let annual_margins := series.*2 in
  let annual_years := series.*1 in
  if decide (length annual_margins < 2)%nat then Ok None else
  latest ← index annual_margins (-1);
  vs_yoy ← (if decide (2 ≤ length annual_margins)%nat
            then recent ← index annual_margins (-1);
                 prior ← index annual_margins (-2);
                 Ok (Some (round_float (recent - prior) 2))
            else Ok None);
  vs_prev_q ← (if decide (2 ≤ length quarterly_reports)%nat
               then r0 ← index quarterly_reports 0;
                    r0' ← index quarterly_reports 0;
                    r1 ← index quarterly_reports 1;
                    r1' ← index quarterly_reports 1;
                    q_latest_margin ← pct (field r0 "operatingIncome")
                                          (field r0' "totalRevenue") None;
                    q_prev_margin ← pct (field r1 "operatingIncome")
                                        (field r1' "totalRevenue") None;
                    match q_latest_margin, q_prev_margin with
                    | Some l, Some p => Ok (Some (round_float (l - p) 2))
                    | _, _ => Ok None
                    end
               else Ok None);
  ytd_quarters ← ytd_filter current_year quarterly_reports;
  ytd_margin ← (match ytd_quarters with
                | [] => Ok None
                | _ =>
                  let ytd_oi :=
                    sum_float ((λ r, field_or_zero r "operatingIncome")
                                 <$> ytd_quarters) in
                  let ytd_rev :=
                    sum_float ((λ r, field_or_zero r "totalRevenue")
                                 <$> ytd_quarters) in
                  pct (Some ytd_oi) (Some ytd_rev) None
                end);
  latest_year ← (match annual_years with
                 | [] => Ok None
                 | _ => y ← index annual_years (-1); Ok (Some y)
                 end);
  mean_5yr ← calculate_avg (Some <$> annual_margins);
  cagr_5yr ← calculate_cagr (Some <$> annual_margins);
  cv ← calculate_cv (Some <$> annual_margins);
  slope ← calculate_slope (Some <$> annual_margins);
  recent_delta ← calculate_recent_delta (Some <$> annual_margins);
  outlier_years ← outlier_labels annual_years annual_margins;
  Ok (Some {|
    Margin.latest := latest;
    Margin.latest_year := latest_year;
    Margin.vs_yoy_pct := vs_yoy;
    Margin.vs_prev_q_pct := vs_prev_q;
    Margin.mean_5yr := mean_5yr;
    Margin.cagr_5yr := cagr_5yr;
    Margin.cv := cv;
    Margin.slope := slope;
    Margin.recent_delta := recent_delta;
    Margin.outlier_years := outlier_years;
    Margin.annual_years := annual_years;
    Margin.annual_values := annual_margins;
    Margin.years_of_data := length annual_margins;
    Margin.ytd_margin := ytd_margin;
    Margin.ytd_num_quarters := length ytd_quarters
  |})
  end.
End income.

End calculators.

(** *** P/E *)

(** The loop over [common_years]: the years with positive earnings, each
    with its rounded ratio. *)
Definition pe_point (price_annual eps_annual : gmap string R)
    (year : string) : res (option (string * R)) :=
  price ← getitem price_annual year;
  eps ← getitem eps_annual year;
  if decide (eps > 0)
  then q ← div_float price eps; Ok (Some (year, round_float q 2))
  else Ok None.

Definition pe_series (price_stats : Price.stats) (eps_stats : Eps.stats)
    : res (list (string * R)) :=
  let price_annual :=
    dict_of_zip (Price.annual_years price_stats)
                (Price.annual_values price_stats) in
  let eps_annual :=
    dict_of_zip (Eps.annual_years eps_stats)
                (Eps.annual_values eps_stats) in
  let common_years :=
    merge_sort String.le (elements (dom price_annual ∩ dom eps_annual)) in
  pts ← mapM (pe_point price_annual eps_annual) common_years;
  Ok (omap (λ o : option (string * R), o) pts).

(** [round(current_price / ttm_eps, 2) if current_price and ttm_eps and
    ttm_eps > 0 else None] *)
Definition trailing_pe_of (current_price : R) (ttm_eps : option R)
    : res (option R) :=
  match ttm_eps with
  | Some t =>
      if decide (current_price ≠ 0 ∧ t ≠ 0 ∧ t > 0)
      then q ← div_float current_price t; Ok (Some (round_float q 2))
      else Ok None
  | None => Ok None
  end.

Definition calculate_pe_stats (price_stats : option Price.stats)
    (eps_stats : option Eps.stats) : res (option Pe.stats) :=
  match price_stats, eps_stats with
  | Some price_stats, Some eps_stats =>
  let current_price := Price.current price_stats in
  let ttm_eps := Eps.ttm eps_stats in
  trailing_pe ← trailing_pe_of current_price ttm_eps;
  series ← pe_series price_stats eps_stats;
  let pe_values := series.*2 in
  let pe_years := series.*1 in
  mean_5yr ← (match pe_values with
              | [] => Ok None
              | _ => calculate_avg (Some <$> pe_values)
              end);
  vs_5yr_avg_pct ← (match trailing_pe, mean_5yr with
                    | Some t, Some m =>
                        if decide (t ≠ 0 ∧ m ≠ 0 ∧ m ≠ 0)
                        then r ← pct_change t m m; Ok (Some r)
                        else Ok None
                    | _, _ => Ok None
                    end);
  vs_yoy_pct ← (if decide (2 ≤ length pe_values)%nat
                then prior ← index pe_values (-2);
                     if decide (prior ≠ 0)
                     then recent ← index pe_values (-1);
                          r ← pct_change recent prior prior; Ok (Some r)
                     else Ok None
                else Ok None);
  cagr_5yr ← calculate_cagr (Some <$> pe_values);
  cv ← calculate_cv (Some <$> pe_values);
  slope ← calculate_slope (Some <$> pe_values);
  recent_delta ← calculate_recent_delta (Some <$> pe_values);
  outlier_years ← outlier_labels pe_years pe_values;
  Ok (Some {|
    Pe.trailing_pe := trailing_pe;
    Pe.current_price := current_price;
    Pe.ttm_eps := ttm_eps;
    Pe.mean_5yr := mean_5yr;
    Pe.cagr_5yr := cagr_5yr;
    Pe.cv := cv;
    Pe.slope := slope;
    Pe.vs_yoy_pct := vs_yoy_pct;
    Pe.vs_5yr_avg_pct := vs_5yr_avg_pct;
    Pe.recent_delta := recent_delta;
    Pe.outlier_years := outlier_years;
    Pe.annual_years := pe_years;
    Pe.annual_values := pe_values;
    Pe.years_of_data := length pe_values
  |})
  | _, _ => Ok None
  end.

(** ** Formatting *)

(** The decimal digits of a natural number. *)
Definition digits_of (n : N) : string :=
  NilZero.string_of_uint (N.to_uint n).

(** The [,] option of the format language: a comma before every group of
    three digits, counted from the right. *)
Fixpoint group_rev (rev_digits : list ascii) (count : nat) : list ascii :=
  match rev_digits with
  | [] => []
  | c :: rest =>
      if decide (count = 3)%nat
      then ","%char :: c :: group_rev rest 1
      else c :: group_rev rest (S count)
  end.
Definition group_thousands (s : string) : string :=
  String.string_of_list_ascii
    (reverse (group_rev (reverse (String.list_ascii_of_string s)) 0)).

(** [n] written on [width] digits, zeros in front. *)
Definition pad_zeros (width : nat) (n : N) : string :=
  let s := digits_of n in
  String.string_of_list_ascii (replicate (width - String.length s) "0"%char) +:+ s.

(** [f"{x:.{digits}f}"], and [f"{x:,.{digits}f}"] when [grouping] is set:
    the value rounded half to even on its last digit kept. *)
Definition format_fixed (grouping : bool) (digits : nat) (x : R) : string :=
  let scaled := Z.abs_N (round_half_even (x * 10 ^ digits)) in
  let unit := (10 ^ N.of_nat digits)%N in
  let int_part := digits_of (scaled / unit)%N in
  let sign := if decide (x < 0) then "-" else "" in
  sign
  +:+ (if grouping then group_thousands int_part else int_part)
  +:+ (match digits with
       | O => ""
       | _ => "." +:+ pad_zeros digits (scaled mod unit)%N
       end).

Section formatting.
(** [str(x)] on a float: the shortest decimal that reads back as [x]. *)
Variable str_float : R → string.

Definition fmt_val (val : option R) (unit : string) (is_delta : bool)
    : string :=
  match val with
  | None => "—"
  | Some val =>
  let prefix := if decide (is_delta = true ∧ val > 0) then "+" else "" in
  if decide (unit = "dollars")
  then prefix +:+ "$" +:+ format_fixed true 2 val
  else if decide (unit = "dollars_large")
  then if decide (Rabs val >= 1e9)
       then prefix +:+ "$" +:+ format_fixed true 2 (val / 1e9) +:+ "B"
       else if decide (Rabs val >= 1e6)
       then prefix +:+ "$" +:+ format_fixed true 1 (val / 1e6) +:+ "M"
       else prefix +:+ "$" +:+ format_fixed true 0 val
  else if decide (unit = "percent")
  then prefix +:+ format_fixed false 2 val +:+ "%"
  else if decide (unit = "ratio")
  then prefix +:+ format_fixed false 2 val
  else prefix +:+ str_float val
  end.
End formatting.

(** ** Notions used in the statements *)

(** The mean, the population variance and the population standard
    deviation of a list, and the band of two deviations around the mean. *)
Definition mean_of (l : list R) : R := sum_float l / INR (length l).
Definition variance_of (l : list R) : R :=
  sum_float ((λ x, (x - mean_of l) ^ 2) <$> l) / INR (length l).
Definition std_dev_of (l : list R) : R := sqrt (variance_of l).
Definition outside_band (l : list R) (v : R) : Prop :=
  v < mean_of l - 2 * std_dev_of l ∨ v > mean_of l + 2 * std_dev_of l.


(** [returns_with m P]: [m] ends without an exception, on a value that
    satisfies [P]. *)
Definition returns_with {A} (m : res A) (P : A → Prop) : Prop :=
  ∃ a, m = Ok a ∧ P a.

(** The period-end date of an entry, when it is a string or absent, and
    the payloads whose dates are all so. *)
Definition date_is_string (e : entry) : Prop :=
  ∀ v, e !! "fiscalDateEnding" = Some v → ∃ s, v = PStr s.
Definition dates_ok (entries : list entry) : Prop :=
  Forall date_is_string entries.

(** The date an entry is filed under, and the order of a sequence that
    lists the newest entry first. *)
Definition entry_date (e : entry) : string :=
  match e !! "fiscalDateEnding" with
  | Some (PStr s) => s
  | _ => ""
  end.


(** The ratio of one year, from the two dictionaries of the P/E loop:
    defined when the year is in both and its EPS is positive. *)
Definition pe_value (price_annual eps_annual : gmap string R)
    (year : string) : option (string * R) :=
  match price_annual !! year, eps_annual !! year with
  | Some price, Some eps =>
      if decide (eps > 0) then Some (year, round_float (price / eps) 2)
      else None
  | _, _ => None
  end.

(** ** A reading of decimal strings

    [float] restricted to the strings the API sends for a number: an
    optional sign, digits, and an optional point followed by digits.  The
    calculators are stated for every [float_of_str]; this one serves the
    examples. *)

Definition digit_of (c : ascii) : option N :=
  let n := N_of_ascii c in
  if decide (48 ≤ n ≤ 57)%N then Some (n - 48)%N else None.

Fixpoint digits_value (acc : N) (l : list ascii) : option N :=
  match l with
  | [] => Some acc
  | c :: l => d ← digit_of c; digits_value (10 * acc + d)%N l
  end.

Fixpoint split_point (l : list ascii) : list ascii * list ascii :=
  match l with
  | [] => ([], [])
  | c :: l =>
      if decide (c = "."%char) then ([], l)
      else let '(int_part, frac_part) := split_point l in
           (c :: int_part, frac_part)
  end.

Definition parse_decimal (s : string) : option R :=
  let l := String.list_ascii_of_string s in
  let '(negative, l) :=
    match l with
    | c :: l' =>
        if decide (c = "-"%char) then (true, l')
        else if decide (c = "+"%char) then (false, l')
        else (false, l)
    | [] => (false, l)
    end in
  let '(int_part, frac_part) := split_point l in
  match int_part ++ frac_part with
  | [] => None
  | ds =>
      n ← digits_value 0 ds;
      Some ((if negative : bool then -1 else 1)
            * IZR (Z.of_N n) / 10 ^ length frac_part)
  end.

(** ** Example payloads *)

Definition month (close : string) : entry :=
  {[ "5. adjusted close" := PStr close ]}.

(** Thirteen months, 110 the newest and 100 the oldest. *)
Definition thirteen_months : time_series :=
  {[ "2024-03-28" := month "110.0"; "2024-02-29" := month "108.0";
     "2024-01-31" := month "109.0"; "2023-12-29" := month "107.0";
     "2023-11-30" := month "106.0"; "2023-10-31" := month "105.0";
     "2023-09-29" := month "104.0"; "2023-08-31" := month "112.0";
     "2023-07-31" := month "103.0"; "2023-06-30" := month "102.0";
     "2023-05-31" := month "101.0"; "2023-04-28" := month "99.0";
     "2023-03-31" := month "100.0" ]}.

Definition quarter (date eps estimate : string) : entry :=
  {[ "fiscalDateEnding" := PStr date; "reportedEPS" := PStr eps;
     "estimatedEPS" := PStr estimate ]}.


Definition report (date revenue operating_income : string) : entry :=
  {[ "fiscalDateEnding" := PStr date; "totalRevenue" := PStr revenue;
     "operatingIncome" := PStr operating_income ]}.

(** Two reported quarters and no annual entry. *)
Definition earnings_without_annual : earnings :=
  {| quarterlyEarnings := [quarter "2024-03-31" "1.25" "1.20";
                           quarter "2023-12-31" "1.10" "1.15"];
     annualEarnings := [] |}.


(** Two annual reports, newest first, and two quarters. *)
Definition income_two_years : income :=
  {| annualReports := [report "2023-12-31" "2000000000" "500000000";
                       report "2022-12-31" "1600000000" "320000000"];
     quarterlyReports := [report "2024-03-31" "550000000" "140000000";
                          report "2023-12-31" "520000000" "130000000"] |}.

(** ** Readings of the specification that the code does not follow *)

(** An EPS payload without annual entries gives no record. *)
Definition eps_none_without_annual (float_of_str : string → option R)
    : Prop :=
  ∀ data, annualEarnings data = [] →
          calculate_eps_stats float_of_str (Some data) = Ok None.


(** The sign that [fmt_val] puts before a positive delta. *)
Definition delta_prefix (val : R) (is_delta : bool) : string :=
  if decide (is_delta = true ∧ val > 0) then "+" else "".

(** The reading of the [dollars_large] thresholds as strict: billions
    above 1e9, millions above 1e6, whole dollars otherwise. *)
Definition dollars_large_strict : Prop :=
  ∀ (str_float : R → string) (val : R),
    (Rabs val > 1e9 →
     fmt_val str_float (Some val) "dollars_large" false
     = "$" +:+ format_fixed true 2 (val / 1e9) +:+ "B")
    ∧ (¬ Rabs val > 1e9 → Rabs val > 1e6 →
       fmt_val str_float (Some val) "dollars_large" false
       = "$" +:+ format_fixed true 1 (val / 1e6) +:+ "M")
    ∧ (¬ Rabs val > 1e6 →
       fmt_val str_float (Some val) "dollars_large" false
       = "$" +:+ format_fixed true 0 val).

(** A price record and an EPS record with the annual series given, the
    other fields being those of a record without further data. *)
Definition price_record_of (current : R) (years : list string)
    (values : list R) : Price.stats :=
  {| Price.current := current; Price.current_date := "";
     Price.mean_5yr := None; Price.cagr_5yr := None; Price.cv := None;
     Price.slope := None; Price.vs_3mo_pct := None; Price.vs_yoy_pct := None;
     Price.high_52w := None; Price.low_52w := None;
     Price.vs_52w_high_pct := None; Price.vs_52w_low_pct := None;
     Price.months_of_data := 0; Price.annual_years := years;
     Price.annual_values := values;
     Price.annual_recent_delta := Delta None None;
     Price.annual_outliers := [] |}.

Definition eps_record_of (latest : R) (ttm : option R) (years : list string)
    (values : list R) : Eps.stats :=
  {| Eps.latest := latest; Eps.latest_date := PNone; Eps.ttm := ttm;
     Eps.vs_prev_q_pct := None; Eps.vs_yoy_pct := None;
     Eps.mean_5yr := None; Eps.cagr_5yr := None; Eps.cv := None;
     Eps.slope := None; Eps.recent_delta := Delta None None;
     Eps.outlier_years := []; Eps.annual_years := years;
     Eps.annual_values := values; Eps.years_of_data := length values;
     Eps.beat_miss_history := [] |}.

(** ** Further example payloads *)

(** An annual report whose period-end date is the JSON [null]. *)
Definition report_null_date (revenue operating_income : string) : entry :=
  {[ "fiscalDateEnding" := PNone; "totalRevenue" := PStr revenue;
     "operatingIncome" := PStr operating_income ]}.

Definition income_null_date : income :=
  {| annualReports := [report "2023-12-31" "2000000000" "500000000";
                       report_null_date "1600000000" "320000000"];
     quarterlyReports := [] |}.

(** The dictionary of annual prices the source builds: the December
    closes, and the current close for a current year without one. *)
Definition annual_prices_of (monthly : list (string * R))
    (current_year : string) (current : R) : gmap string R :=
  if decide (current_year ∈ dom (december_closes monthly))
  then december_closes monthly
  else <[current_year := current]> (december_closes monthly).

(** The change of the latest EPS against the quarter listed at position
    [k], as a percentage of the absolute value of that quarter's EPS:
    absent when the quarter is not listed, has no reported EPS, or
    reports 0. *)
Definition quarter_change (float_of_str : string → option R)
    (quarterly : list entry) (latest_eps : R) (k : nat) : option R :=
  match quarterly !! k with
  | Some q =>
      match field float_of_str q "reportedEPS" with
      | Some e => if decide (e = 0) then None
                  else Some (round_float ((latest_eps - e) / Rabs e * 100) 2)
      | None => None
      end
  | None => None
  end.


(** ** Estimates *)

(** The [EARNINGS_ESTIMATES] payload; a key that is missing reads as [[]]. *)
Record estimates_payload : Type := EstimatesPayload {
  estimates : list entry
}.

Module Estimates.
(** One estimate horizon, as [calculate_estimates_stats] parses it. *)
Record parsed : Type := Parsed {
  date : pyval;
  horizon : pyval;
  eps_avg : option R;
  eps_high : option R;
  eps_low : option R;
  analyst_count : option R;
  revision_7d : option R;
  revision_30d : option R;
  revision_60d : option R;
  revision_90d : option R;
  rev_up_7d : option R;
  rev_down_7d : option R;
  rev_up_30d : option R;
  rev_down_30d : option R;
  revenue_avg : option R;
  revenue_high : option R;
  revenue_low : option R;
  revenue_analyst_count : option R
}.

Record stats : Type := Stats {
  latest_actual_eps : option R;
  next_quarter : option parsed;
  current_fiscal_year : option parsed;
  next_fiscal_year : option parsed;
  delta_actual_vs_next_q : option R;
  delta_actual_vs_next_q_pct : option R;
  all_estimates : list parsed
}.
End Estimates.

(** [needle in hay] on strings. *)
Fixpoint contains (needle hay : string) : bool :=
  String.prefix needle hay
  || match hay with
     | EmptyString => false
     | String _ rest => contains needle rest
     end.

(** The horizons found so far: next quarter, next fiscal year, current
    fiscal year. *)
Abbreviation key_horizons :=
  (option Estimates.parsed * option Estimates.parsed
   * option Estimates.parsed)%type.

Section estimates.
Variable float_of_str : string → option R.
(** [str.strip] and [str.lower] *)
Variable strip : string → string.
Variable lower : string → string.

Definition parse_estimate (est : entry) : Estimates.parsed :=
  let number k := safe_float float_of_str (get est k) None in
  {| Estimates.date := get est "date";
     Estimates.horizon := get est "horizon";
     Estimates.eps_avg := number "eps_estimate_average";
     Estimates.eps_high := number "eps_estimate_high";
     Estimates.eps_low := number "eps_estimate_low";
     Estimates.analyst_count := number "eps_estimate_analyst_count";
     Estimates.revision_7d := number "eps_estimate_average_7_days_ago";
     Estimates.revision_30d := number "eps_estimate_average_30_days_ago";
     Estimates.revision_60d := number "eps_estimate_average_60_days_ago";
     Estimates.revision_90d := number "eps_estimate_average_90_days_ago";
     Estimates.rev_up_7d :=
       number "eps_estimate_revision_up_trailing_7_days";
     Estimates.rev_down_7d :=
       number "eps_estimate_revision_down_trailing_7_days";
     Estimates.rev_up_30d :=
       number "eps_estimate_revision_up_trailing_30_days";
     Estimates.rev_down_30d :=
       number "eps_estimate_revision_down_trailing_30_days";
     Estimates.revenue_avg := number "revenue_estimate_average";
     Estimates.revenue_high := number "revenue_estimate_high";
     Estimates.revenue_low := number "revenue_estimate_low";
     Estimates.revenue_analyst_count :=
       number "revenue_estimate_analyst_count" |}.

(** [(p.get('horizon') or '').strip().lower()]: a number other than 0 has
    no [strip]. *)
Definition horizon_of (p : Estimates.parsed) : res string :=
  match Estimates.horizon p with
  | PNone => Ok (lower (strip ""))
  | PStr s => Ok (lower (strip s))
  | PNum x => if decide (x = 0) then Ok (lower (strip ""))
              else Raise AttributeError
  end.

(** One turn of the loop over the parsed estimates. *)
Definition pick_horizon (found : key_horizons) (p : Estimates.parsed)
    : res key_horizons :=
  let '(next_quarter, next_fiscal_year, current_fiscal_year) := found in
  horizon ← horizon_of p;
  if decide (contains "next quarter" horizon = true ∧ next_quarter = None)
  then Ok (Some p, next_fiscal_year, current_fiscal_year)
  else if decide (contains "next fiscal year" horizon = true
                  ∧ next_fiscal_year = None)
  then Ok (next_quarter, Some p, current_fiscal_year)
  else if decide (contains "current fiscal year" horizon = true
                  ∧ current_fiscal_year = None)
  then Ok (next_quarter, next_fiscal_year, Some p)
  else Ok found.

Fixpoint find_horizons (parsed : list Estimates.parsed)
    (found : key_horizons) : res key_horizons :=
  match parsed with
  | [] => Ok found
  | p :: parsed => found ← pick_horizon found p; find_horizons parsed found
  end.

(** The two deltas of the latest actual EPS against the consensus of the
    next quarter; a consensus that is [None] or 0 is false. *)
Definition consensus_deltas (latest_actual : option R)
    (next_quarter : option Estimates.parsed)
    : res (option R * option R) :=
  match latest_actual, next_quarter with
  | Some actual, Some nq =>
      match Estimates.eps_avg nq with
      | Some consensus =>
          if decide (consensus ≠ 0)
          then let delta := round_float (actual - consensus) 4 in
               if decide (consensus ≠ 0)
               then r ← pct_change actual consensus (Rabs consensus);
                    Ok (Some delta, Some r)
               else Ok (Some delta, None)
          else Ok (None, None)
      | None => Ok (None, None)
      end
  | _, _ => Ok (None, None)
  end.

Definition calculate_estimates_stats
    (estimates_data : option estimates_payload)
    (earnings_data : option earnings) : res (option Estimates.stats) :=
  match estimates_data with
  | None => Ok None
  | Some data =>
  let estimates := estimates data in
  if decide (estimates = []) then Ok None else
  let latest_actual :=
    match earnings_data with
    | Some e =>
        match quarterlyEarnings e with
        | q0 :: _ => safe_float float_of_str (get q0 "reportedEPS") None
        | [] => None
        end
    | None => None
    end in
  let parsed := parse_estimate <$> estimates in
  found ← find_horizons parsed (None, None, None);
  deltas ← consensus_deltas latest_actual found.1.1;
  Ok (Some {|
    Estimates.latest_actual_eps := latest_actual;
    Estimates.next_quarter := found.1.1;
    Estimates.current_fiscal_year := found.2;
    Estimates.next_fiscal_year := found.1.2;
    Estimates.delta_actual_vs_next_q := deltas.1;
    Estimates.delta_actual_vs_next_q_pct := deltas.2;
    Estimates.all_estimates := parsed
  |})
  end.

(** The horizon of a parsed estimate as the loop reads it, when it can. *)
Definition horizon_text (p : Estimates.parsed) : string :=
  lower (strip (match Estimates.horizon p with
                | PStr s => s
                | _ => ""
                end)).

Definition mentions (phrase : string) (p : Estimates.parsed) : Prop :=
  contains phrase (horizon_text p) = true.
Global Instance mentions_dec phrase p : Decision (mentions phrase p).
Proof. unfold mentions. apply _. Defined.

End estimates.

(** An estimate whose horizon is a number other than 0. *)
Definition numeric_horizon (est : entry) : Prop :=
  ∃ x, get est "horizon" = PNum x ∧ x ≠ 0.

(** [strip] and [lower] on ASCII strings, for the examples. *)
Definition is_space (c : ascii) : bool :=
  let n := N_of_ascii c in
  bool_decide (n = 32 ∨ 9 ≤ n ≤ 13 ∨ 28 ≤ n ≤ 31)%N.

Fixpoint lstrip (l : list ascii) : list ascii :=
  match l with
  | [] => []
  | c :: rest => if is_space c then lstrip rest else l
  end.

Definition ascii_strip (s : string) : string :=
  String.string_of_list_ascii
    (reverse (lstrip (reverse (lstrip (String.list_ascii_of_string s))))).

Definition ascii_lower (s : string) : string :=
  String.string_of_list_ascii
    ((λ c, let n := N_of_ascii c in
           if decide (65 ≤ n ≤ 90)%N then ascii_of_N (n + 32) else c)
     <$> String.list_ascii_of_string s).

Definition estimate (horizon date eps_average : string) : entry :=
  {[ "horizon" := PStr horizon; "date" := PStr date;
     "eps_estimate_average" := PStr eps_average ]}.

(** Three horizons, one of each kind, and a second next quarter. *)
Definition estimates_three_horizons : estimates_payload :=
  {| estimates := [estimate "Current Fiscal Year" "2024-12-31" "5.10";
                   estimate " Next Quarter " "2024-06-30" "1.30";
                   estimate "next fiscal year" "2025-12-31" "5.80";
                   estimate "next quarter" "2024-09-30" "1.40"] |}.

(** ** The annual tables of the report *)

Section report_tables.
Variable str_float : R → string.

Definition build_annual_table (years : list string)
    (values : list (option R)) (unit : string)
    (current_label : option string) (current_val : option R)
    : list string * list string :=
  let headers := "" :: years in
  let row_vals := (λ v, fmt_val str_float v unit false) <$> values in
  match current_label, current_val with
  | Some label, Some val =>
      if decide (label ≠ "")
      then (headers ++ [label],
            row_vals ++ [fmt_val str_float (Some val) unit false])
      else (headers, row_vals)
  | _, _ => (headers, row_vals)
  end.

(** The annual table of each section of [generate_screening_report]: the
    headers and the row handed to [tabulate]. *)
Definition labelled (label : string) (table : list string * list string)
    : list string * list string :=
  ("" :: drop 1 table.1, label :: table.2).

Definition price_annual_table (price : Price.stats)
    : list string * list string :=
  labelled "Price"
    (build_annual_table (Price.annual_years price)
       (Some <$> Price.annual_values price) "dollars"
       (Some "Current") (Some (Price.current price))).

Definition eps_annual_table (eps : Eps.stats) : list string * list string :=
  labelled "EPS"
    (build_annual_table (Eps.annual_years eps)
       (Some <$> Eps.annual_values eps) "dollars"
       (Some "TTM") (Eps.ttm eps)).

Definition revenue_annual_table (revenue : Revenue.stats)
    : list string * list string :=
  let current :=
    if decide (truthy (Revenue.ytd_annualized revenue))
    then (Some ("YTD Ann. ("
                +:+ digits_of (N.of_nat (Revenue.ytd_num_quarters revenue))
                +:+ "Q)"),
          Revenue.ytd_annualized revenue)
    else (None, None) in
  labelled "Revenue"
    (build_annual_table (Revenue.annual_years revenue)
       (Some <$> Revenue.annual_values revenue) "dollars_large"
       current.1 current.2).

Definition margin_annual_table (margin : Margin.stats)
    : list string * list string :=
  let current :=
    match Margin.ytd_margin margin with
    | Some m => (Some ("YTD ("
                       +:+ digits_of (N.of_nat (Margin.ytd_num_quarters margin))
                       +:+ "Q)"),
                 Some m)
    | None => (None, None)
    end in
  labelled "Op. Margin"
    (build_annual_table (Margin.annual_years margin)
       (Some <$> Margin.annual_values margin) "percent"
       current.1 current.2).

Definition pe_annual_table (pe : Pe.stats) : list string * list string :=
  labelled "P/E"
    (build_annual_table (Pe.annual_years pe)
       (Some <$> Pe.annual_values pe) "ratio"
       (Some "Trailing") (Pe.trailing_pe pe)).

End report_tables.
(** * Properties *)

(** ** The result monad *)

Lemma bind_Ok {A B} (f : A → res B) (a : A) : (Ok a ≫= f) = f a.
Proof. reflexivity. Qed.

Lemma bind_returns {A B} (f : A → res B) (m : res A) (b : B) :
  (m ≫= f) = Ok b ↔ ∃ a, m = Ok a ∧ f a = Ok b.
Proof.
  destruct m as [a|e]; simpl.
  - split; [eauto | intros (a' & [= <-] & ?); done].
  - split; [done | intros (a' & [=] & ?)].
Qed.

Lemma div_float_Ok (x y : R) : y ≠ 0 → div_float x y = Ok (x / y).
Proof. intros Hy. unfold div_float. by rewrite decide_False. Qed.

Lemma index_Ok {A} (l : list A) (i : nat) (a : A) :
  l !! i = Some a → index l (Z.of_nat i) = Ok a.
Proof.
  intros Hi. unfold index. cbv zeta.
  rewrite (decide_False (P := (Z.of_nat i < 0)%Z)) by lia.
  rewrite decide_False by lia.
  by rewrite Nat2Z.id, Hi.
Qed.

Lemma index_neg_Ok {A} (l : list A) (k : nat) (a : A) :
  (0 < k ≤ length l)%nat → l !! (length l - k)%nat = Some a →
  index l (- Z.of_nat k) = Ok a.
Proof.
  intros Hk Hi. unfold index. cbv zeta.
  rewrite (decide_True (P := (- Z.of_nat k < 0)%Z)) by lia.
  rewrite decide_False by lia.
  replace (Z.to_nat (- Z.of_nat k + Z.of_nat (length l))) with (length l - k)%nat
    by lia.
  by rewrite Hi.
Qed.

Lemma index_lt_length {A} (l : list A) (i : Z) (a : A) :
  index l i = Ok a → (0 ≤ i → i < Z.of_nat (length l))%Z.
Proof.
  unfold index. cbv zeta. intros H Hi.
  rewrite (decide_False (P := (i < 0)%Z)) in H by lia.
  rewrite decide_False in H by lia.
  destruct (l !! Z.to_nat i) eqn:E; [|done].
  apply lookup_lt_Some in E. lia.
Qed.

(** ** Sums, means and variances *)

Lemma foldl_Rplus (l : list R) (a : R) : foldl Rplus a l = a + foldl Rplus 0 l.
Proof.
  revert a. induction l as [|x l IH]; intros a; simpl; [lra|].
  rewrite (IH (a + x)), (IH (0 + x)). lra.
Qed.

Lemma sum_float_nil : sum_float [] = 0.
Proof. reflexivity. Qed.

Lemma sum_float_cons (x : R) (l : list R) :
  sum_float (x :: l) = x + sum_float l.
Proof. unfold sum_float. simpl. rewrite foldl_Rplus. lra. Qed.

Lemma sum_float_nonneg (l : list R) : Forall (λ x, 0 <= x) l → 0 <= sum_float l.
Proof.
  induction 1 as [|x l Hx _ IH]; [rewrite sum_float_nil; lra|].
  rewrite sum_float_cons. lra.
Qed.


Lemma INR_length_pos {A} (l : list A) : (0 < length l)%nat → 0 < INR (length l).
Proof. intros H. apply lt_0_INR. lia. Qed.

Lemma variance_of_nonneg (l : list R) : 0 <= variance_of l.
Proof.
  unfold variance_of. destruct l as [|x l].
  - simpl. rewrite sum_float_nil. unfold Rdiv. rewrite Rmult_0_l. lra.
  - apply Rmult_le_pos.
    + apply sum_float_nonneg, Forall_fmap, Forall_forall. intros y _. simpl.
      apply pow2_ge_0.
    + left. apply Rinv_0_lt_compat, INR_length_pos. simpl. lia.
Qed.

Lemma pow_float_half (v : R) : 0 <= v → pow_float v 0.5 = Ok (sqrt v).
Proof.
  intros Hv. unfold pow_float.
  destruct (decide (0 < v)) as [Hpos|Hnpos].
  - f_equal. replace 0.5 with (/ 2) by lra. by apply Rpower_sqrt.
  - assert (v = 0) as -> by lra.
    rewrite decide_True by done. rewrite decide_True by lra.
    by rewrite sqrt_0.
Qed.

(** ** Enumeration and the filtering of [None] *)

Lemma clean_values_Some (l : list R) : clean_values (Some <$> l) = l.
Proof.
  unfold clean_values. induction l as [|x l IH]; [done|].
  simpl. by f_equal.
Qed.

Lemma clean_values_cons_Some (x : R) (values : list (option R)) :
  clean_values (Some x :: values) = x :: clean_values values.
Proof. reflexivity. Qed.

Lemma clean_values_cons_None (values : list (option R)) :
  clean_values (None :: values) = clean_values values.
Proof. reflexivity. Qed.

Lemma clean_from_snd (n : nat) (values : list (option R)) :
  (omap (λ p : nat * option R, pair p.1 <$> p.2) (enumerate_from n values)).*2
  = clean_values values.
Proof.
  revert n. induction values as [|[x|] values IH]; intros n; simpl.
  - done.
  - f_equal. apply IH.
  - apply IH.
Qed.

Lemma clean_indexed_snd (values : list (option R)) :
  (clean_indexed values).*2 = clean_values values.
Proof. apply clean_from_snd. Qed.

Lemma clean_indexed_length (values : list (option R)) :
  length (clean_indexed values) = length (clean_values values).
Proof. by rewrite <- clean_indexed_snd, length_fmap. Qed.

Lemma elem_of_clean_from (n i : nat) (v : R) (values : list (option R)) :
  (i, v) ∈ omap (λ p : nat * option R, pair p.1 <$> p.2)
             (enumerate_from n values)
  ↔ (n ≤ i)%nat ∧ values !! (i - n)%nat = Some (Some v).
Proof.
  revert n. induction values as [|o values IH]; intros n.
  - simpl. split; [by intros ?%elem_of_nil | by intros [_ ?]].
  - assert (Hrest :
      (i, v) ∈ omap (λ p : nat * option R, pair p.1 <$> p.2)
                 (enumerate_from (S n) values)
      ↔ (n < i)%nat ∧ (o :: values) !! (i - n)%nat = Some (Some v)).
    { rewrite IH. split.
      - intros [Hle Hl]. split; [lia|].
        replace (i - n)%nat with (S (i - S n)) by lia. done.
      - intros [Hlt Hl]. split; [lia|].
        replace (i - n)%nat with (S (i - S n)) in Hl by lia. done. }
    destruct o as [x|]; simpl.
    + rewrite elem_of_cons, Hrest. split.
      * intros [[= -> ->]|[Hlt Hl]].
        -- split; [lia|]. by rewrite Nat.sub_diag.
        -- split; [lia|done].
      * intros [Hle Hl]. destruct (decide (i = n)) as [->|Hne].
        -- left. rewrite Nat.sub_diag in Hl. simpl in Hl. congruence.
        -- right. split; [lia|done].
    + rewrite Hrest. split.
      * intros [Hlt Hl]. split; [lia|done].
      * intros [Hle Hl]. destruct (decide (i = n)) as [->|Hne].
        -- rewrite Nat.sub_diag in Hl. done.
        -- split; [lia|done].
Qed.

Lemma elem_of_clean_indexed (i : nat) (v : R) (values : list (option R)) :
  (i, v) ∈ clean_indexed values ↔ values !! i = Some (Some v).
Proof.
  unfold clean_indexed, enumerate. rewrite elem_of_clean_from.
  rewrite Nat.sub_0_r. split; [by intros [_ ?] | split; [lia|done]].
Qed.

Lemma clean_from_sorted (n : nat) (values : list (option R)) :
  StronglySorted lt
    (omap (λ p : nat * option R, pair p.1 <$> p.2) (enumerate_from n values)).*1.
Proof.
  revert n. induction values as [|o values IH]; intros n; [constructor|].
  destruct o as [x|]; simpl; [|apply IH].
  constructor; [apply IH|].
  apply Forall_forall. intros i [[i' v] [-> Hin]]%list_elem_of_fmap.
  apply elem_of_clean_from in Hin. simpl. lia.
Qed.


(** ** Outlier detection *)

(** What [detect_outliers] computes: it never raises, and it keeps the
    positions that [enumerate] gave to the values outside the band. *)
Lemma detect_outliers_eq (values : list (option R)) :
  detect_outliers values =
  Ok (if decide (length (clean_values values) < 3)%nat then []
      else (filter (λ p, outside_band (clean_values values) p.2)
                   (clean_indexed values)).*1).
Proof.
  unfold detect_outliers. cbv zeta.
  rewrite clean_indexed_length, clean_indexed_snd.
  destruct (decide (length (clean_values values) < 3)%nat) as [|Hlen]; [done|].
  set (clean := clean_values values) in *.
  assert (Hn : INR (length clean) ≠ 0).
  { apply Rgt_not_eq, INR_length_pos. lia. }
  rewrite (div_float_Ok _ _ Hn), bind_Ok.
  rewrite (div_float_Ok _ _ Hn), bind_Ok.
  fold (mean_of clean). fold (variance_of clean).
  rewrite (pow_float_half _ (variance_of_nonneg clean)), bind_Ok.
  reflexivity.
Qed.

Lemma detect_outliers_elem (values : list (option R)) (out : list nat) :
  detect_outliers values = Ok out →
  ∀ i, i ∈ out ↔
       (3 ≤ length (clean_values values))%nat
       ∧ ∃ v, values !! i = Some (Some v)
              ∧ outside_band (clean_values values) v.
Proof.
  rewrite detect_outliers_eq. intros [= <-] i.
  destruct (decide (length (clean_values values) < 3)%nat) as [Hlt|Hge].
  - split; [by intros ?%elem_of_nil | intros [? _]; lia].
  - rewrite list_elem_of_fmap. split.
    + intros [[j v] [-> [Hout Hin]%list_elem_of_filter]]. simpl in *.
      split; [lia|]. exists v. by rewrite <- elem_of_clean_indexed.
    + intros [_ (v & Hv & Hout)]. exists (i, v). split; [done|].
      apply list_elem_of_filter. by rewrite elem_of_clean_indexed.
Qed.


Lemma detect_outliers_bound (values : list (option R)) (out : list nat) :
  detect_outliers values = Ok out → Forall (λ i, (i < length values)%nat) out.
Proof.
  intros Hout. apply Forall_forall. intros i Hi.
  apply (detect_outliers_elem _ _ Hout) in Hi as [_ (v & Hv & _)].
  by apply lookup_lt_Some in Hv.
Qed.

Lemma mapM_Ok {A B} (f : A → res B) (l : list A) (k : list B) :
  mapM f l = Ok k ↔ Forall2 (λ x y, f x = Ok y) l k.
Proof.
  revert k. induction l as [|x l IH]; intros k; simpl.
  - split; [intros [= <-]; constructor | by intros ->%Forall2_nil_inv_l].
  - rewrite bind_returns. split.
    + intros (y & Hy & (k' & Hk' & [= <-])%bind_returns).
      constructor; [done|]. by apply IH.
    + intros (y & k' & Hy & Hk' & ->)%Forall2_cons_inv_l.
      exists y. split; [done|]. apply bind_returns. exists k'.
      split; [by apply IH | done].
Qed.

Lemma mapM_returns {A B} (f : A → res B) (l : list A) :
  Forall (λ x, returns (f x)) l → returns (mapM f l).
Proof.
  induction 1 as [|x l [y Hy] _ [k Hk]]; [by exists []|].
  exists (y :: k). apply mapM_Ok. constructor; [done|]. by apply mapM_Ok.
Qed.











Lemma mapM_index_returns {A} (l : list A) (out : list nat) :
  Forall (λ i, (i < length l)%nat) out →
  returns (mapM (λ i : nat, index l (Z.of_nat i)) out).
Proof.
  intros Hout. apply mapM_returns. eapply Forall_impl; [exact Hout|].
  intros i [a Ha]%lookup_lt_is_Some. exists a. by apply index_Ok.
Qed.

Lemma outlier_labels_returns (years : list string) (values : list R) :
  length years = length values → returns (outlier_labels years values).
Proof.
  intros Hlen. unfold outlier_labels. destruct values as [|x values0] eqn:E.
  { by exists []. }
  rewrite <- E in *. clear E.
  destruct (detect_outliers (Some <$> values)) as [out|e] eqn:Hout.
  - rewrite bind_Ok. apply mapM_index_returns.
    apply detect_outliers_bound in Hout. rewrite length_fmap in Hout.
    by rewrite Hlen.
  - by rewrite detect_outliers_eq in Hout.
Qed.



(** ** Indexing from either end *)

Lemma index_first {A} (l : list A) (a : A) : head l = Some a → index l 0 = Ok a.
Proof. intros H. apply (index_Ok l 0). by rewrite <- head_lookup. Qed.

Lemma index_last {A} (l : list A) (a : A) :
  last l = Some a → index l (-1) = Ok a.
Proof.
  intros H. assert (Hlen : (0 < length l)%nat).
  { destruct l; [done | simpl; lia]. }
  apply (index_neg_Ok l 1); [lia|].
  rewrite last_lookup in H. by replace (length l - 1)%nat with (pred (length l)) by lia.
Qed.

Lemma index_penultimate {A} (l : list A) :
  (2 ≤ length l)%nat → ∃ a, l !! (length l - 2)%nat = Some a ∧ index l (-2) = Ok a.
Proof.
  intros Hlen. destruct (lookup_lt_is_Some_2 l (length l - 2)) as [a Ha]; [lia|].
  exists a. split; [done|]. apply (index_neg_Ok l 2); [lia|done].
Qed.

Lemma head_is_Some_length {A} (l : list A) :
  (0 < length l)%nat → ∃ a, head l = Some a.
Proof. destruct l as [|a l]; simpl; [lia | eauto]. Qed.

Lemma last_is_Some_length {A} (l : list A) :
  (0 < length l)%nat → ∃ a, last l = Some a.
Proof.
  intros H. rewrite last_lookup. apply lookup_lt_is_Some_2. lia.
Qed.

(** ** Growth rate *)

Lemma calculate_cagr_eq (values : list (option R)) :
  calculate_cagr values =
  Ok (match head (clean_values values), last (clean_values values) with
      | Some first, Some final =>
          if decide ((length (clean_values values) < 2)%nat
                     ∨ first <= 0 ∨ final <= 0)
          then None
          else Some (round_float
                       ((Rpower (final / first)
                           (1 / INR (length (clean_values values) - 1)) - 1)
                        * 100) 2)
      | _, _ => None
      end).
Proof.
  unfold calculate_cagr. cbv zeta. set (clean := clean_values values).
  destruct (decide (length clean < 2)%nat) as [Hlt|Hge].
  - destruct (head clean), (last clean); try done.
    by rewrite decide_True by auto.
  - destruct (head_is_Some_length clean) as [first Hf]; [lia|].
    destruct (last_is_Some_length clean) as [final Hl]; [lia|].
    rewrite Hf, Hl, (index_first _ _ Hf), bind_Ok.
    destruct (decide (first <= 0)) as [Hf0|Hf0].
    { by rewrite decide_True by auto. }
    rewrite (index_last _ _ Hl), bind_Ok.
    destruct (decide (final <= 0)) as [Hl0|Hl0].
    { by rewrite decide_True by auto. }
    rewrite decide_False by tauto.
    rewrite (div_float_Ok final first), bind_Ok by lra.
    rewrite (div_float_Ok 1), bind_Ok by (apply not_0_INR; lia).
    unfold pow_float. rewrite decide_True; [done|].
    apply Rdiv_lt_0_compat; lra.
Qed.

(** C3. [calculate_cagr] never raises.  It returns [None] exactly when
    fewer than two entries are not [None], or the first or the last of
    them is at most 0; otherwise it returns
    [((last / first) ^ (1 / (n - 1)) - 1) * 100] rounded to two decimals,
    [n] being the number of entries that are not [None]. *)
Theorem calculate_cagr_spec (values : list (option R)) :
  ∃ r, calculate_cagr values = Ok r
    ∧ (r = None ↔
         (length (clean_values values) < 2)%nat
         ∨ (∃ first, head (clean_values values) = Some first ∧ first <= 0)
         ∨ (∃ final, last (clean_values values) = Some final ∧ final <= 0))
    ∧ (∀ first final,
         head (clean_values values) = Some first →
         last (clean_values values) = Some final →
         r ≠ None →
         r = Some (round_float
                     ((Rpower (final / first)
                         (1 / INR (length (clean_values values) - 1)) - 1)
                      * 100) 2)).
Proof.
  eexists. split; [apply calculate_cagr_eq|].
  set (clean := clean_values values).
  destruct (head clean) as [first|] eqn:Hf, (last clean) as [final|] eqn:Hl.
  - destruct (decide ((length clean < 2)%nat ∨ first <= 0 ∨ final <= 0))
      as [Hd|Hd].
    + split; [|by intros ?? _ _ []]. split; [|done]. intros _.
      destruct Hd as [?|[?|?]]; eauto.
    + split.
      * split; [done|]. intros [?|[(f & [= <-] & ?)|(l & [= <-] & ?)]]; tauto.
      * by intros ?? [= <-] [= <-] _.
  - apply last_None in Hl. rewrite Hl in Hf. done.
  - apply head_None in Hf. rewrite Hf in Hl. done.
  - split; [|done]. split; [|done]. intros _. left.
    apply head_None in Hf. rewrite Hf. simpl. lia.
Qed.

(** ** The helpers never raise *)

Lemma pct_change_Ok (a b d : R) :
  d ≠ 0 → pct_change a b d = Ok (round_float ((a - b) / d * 100) 2).
Proof. intros Hd. unfold pct_change. by rewrite (div_float_Ok _ d), bind_Ok. Qed.

Lemma safe_divide_returns (num denom dflt : option R) :
  returns (safe_divide num denom dflt).
Proof.
  unfold safe_divide. destruct num as [n|], denom as [d|]; try by eexists.
  destruct (decide (d = 0)); [by eexists|].
  rewrite (div_float_Ok n d), bind_Ok by done. by eexists.
Qed.

Lemma pct_returns (num denom dflt : option R) : returns (pct num denom dflt).
Proof.
  unfold pct. destruct (safe_divide_returns num denom dflt) as [r ->].
  rewrite bind_Ok. destruct r; by eexists.
Qed.

Lemma calculate_cagr_returns (values : list (option R)) :
  returns (calculate_cagr values).
Proof. eexists. apply calculate_cagr_eq. Qed.

Lemma calculate_avg_returns (values : list (option R)) :
  returns (calculate_avg values).
Proof.
  unfold calculate_avg. destruct (clean_values values) as [|x l] eqn:E.
  - by eexists.
  - rewrite (div_float_Ok _ (INR (length (x :: l)))), bind_Ok.
    + by eexists.
    + apply not_0_INR. simpl. lia.
Qed.

Lemma calculate_avg_nil : calculate_avg [] = Ok None.
Proof. reflexivity. Qed.

Lemma calculate_cv_returns (values : list (option R)) :
  returns (calculate_cv values).
Proof.
  unfold calculate_cv. cbv zeta. set (clean := clean_values values).
  destruct (decide (length clean < 2)%nat); [by eexists|].
  assert (Hn : INR (length clean) ≠ 0) by (apply not_0_INR; lia).
  rewrite (div_float_Ok _ _ Hn), bind_Ok. fold (mean_of clean).
  destruct (decide (mean_of clean = 0)) as [|Havg]; [by eexists|].
  rewrite (div_float_Ok _ _ Hn), bind_Ok. fold (variance_of clean).
  rewrite (pow_float_half _ (variance_of_nonneg clean)), bind_Ok.
  rewrite (div_float_Ok _ (Rabs (mean_of clean))), bind_Ok.
  - by eexists.
  - by apply Rabs_no_R0.
Qed.

Lemma calculate_slope_returns (values : list (option R)) :
  returns (calculate_slope values).
Proof.
  unfold calculate_slope. cbv zeta.
  destruct (decide (length (clean_indexed values) < 2)%nat); [by eexists|].
  match goal with |- context [decide (?d = 0)] =>
    destruct (decide (d = 0)) as [|Hd]; [by eexists|];
    rewrite (div_float_Ok _ d Hd), bind_Ok end.
  by eexists.
Qed.

Lemma calculate_recent_delta_returns (values : list (option R)) :
  returns (calculate_recent_delta values).
Proof.
  unfold calculate_recent_delta. cbv zeta. set (clean := clean_values values).
  destruct (decide (length clean < 2)%nat); [by eexists|].
  destruct (last_is_Some_length clean) as [recent Hr]; [lia|].
  destruct (index_penultimate clean) as (prior & _ & Hp); [lia|].
  rewrite (index_last _ _ Hr), bind_Ok, Hp, bind_Ok.
  destruct (decide (prior ≠ 0)) as [Hne|].
  - rewrite (div_float_Ok _ (Rabs prior)), !bind_Ok by (by apply Rabs_no_R0).
    by eexists.
  - rewrite bind_Ok. by eexists.
Qed.

(** ** Chaining computations that return *)

Lemma returns_with_bind {A B} (m : res A) (f : A → res B) (P : B → Prop) :
  returns m → (∀ a, m = Ok a → returns_with (f a) P) →
  returns_with (m ≫= f) P.
Proof. intros [a ->] Hf. rewrite bind_Ok. by apply Hf. Qed.

Lemma returns_with_Ok {A} (a : A) (P : A → Prop) : P a → returns_with (Ok a) P.
Proof. intros HP. by exists a. Qed.

Lemma returns_Ok {A} (a : A) : returns (Ok a).
Proof. by exists a. Qed.

Lemma returns_bind {A B} (m : res A) (f : A → res B) :
  returns m → (∀ a, m = Ok a → returns (f a)) → returns (m ≫= f).
Proof. intros [a ->] Hf. rewrite bind_Ok. by apply Hf. Qed.


Create HintDb returns discriminated.
#[export] Hint Resolve returns_Ok pct_returns safe_divide_returns
  calculate_cagr_returns calculate_avg_returns calculate_cv_returns
  calculate_slope_returns calculate_recent_delta_returns : returns.

(** Takes the computations of a chain one by one, each closed by a lemma
    of the [returns] base. *)
Ltac chain :=
  repeat first
    [ apply returns_with_bind; [solve [eauto with returns] | intros ? ?]
    | apply returns_bind; [solve [eauto with returns] | intros ? ?] ].

(** Opens the chain of a computation known to return. *)
Ltac unchain H :=
  repeat match type of H with
  | (_ ≫= _) = Ok _ =>
      let a := fresh "a" in
      let Ha := fresh "Ha" in
      apply bind_returns in H as (a & Ha & H)
  end.

Lemma index_returns {A} (l : list A) (i : Z) :
  (- Z.of_nat (length l) ≤ i < Z.of_nat (length l))%Z → returns (index l i).
Proof.
  intros Hi. unfold index. cbv zeta.
  destruct (decide (i < 0)%Z).
  - rewrite decide_False by lia.
    destruct (lookup_lt_is_Some_2 l (Z.to_nat (i + Z.of_nat (length l))))
      as [a ->]; [lia|]. by eexists.
  - rewrite decide_False by lia.
    destruct (lookup_lt_is_Some_2 l (Z.to_nat i)) as [a ->]; [lia|].
    by eexists.
Qed.

Lemma div_float_returns (x y : R) : y ≠ 0 → returns (div_float x y).
Proof. intros Hy. rewrite (div_float_Ok x y Hy). by eexists. Qed.

Lemma pct_change_returns (a b d : R) : d ≠ 0 → returns (pct_change a b d).
Proof. intros Hd. rewrite (pct_change_Ok a b d Hd). by eexists. Qed.

#[export] Hint Resolve div_float_returns pct_change_returns Rabs_no_R0
  : returns.

(** Closes a goal [returns m] by following the shape of [m]: a chain is
    taken apart, a branch is decided, an index is checked against the
    lengths at hand. *)
Ltac returns_step :=
  first
  [ solve [eauto with returns]
  | apply index_returns; simpl in *; rewrite ?length_fmap in *; simpl in *; lia
  | apply div_float_returns, not_0_INR; simpl; lia
  | apply returns_bind; [returns_step | intros ? ?; returns_step]
  | match goal with
    | |- returns (if decide ?P then _ else _) =>
        destruct (decide P); returns_step
    | |- returns (match ?x with _ => _ end) =>
        destruct x eqn:?; returns_step
    | H : _ ∧ _ |- _ => destruct H; returns_step
    end ].

(** Takes the computations of a chain one by one. *)
Ltac chain_with tac :=
  repeat first
    [ apply returns_with_bind; [first [returns_step | tac] | intros ? ?]
    | apply returns_bind; [first [returns_step | tac] | intros ? ?] ].

(** ** Annual series *)

Lemma date_of_returns (e : entry) (err : exn) :
  date_is_string e → date_of e err = Ok (entry_date e).
Proof.
  unfold date_is_string, date_of, entry_date. intros H.
  destruct (e !! "fiscalDateEnding") as [v|]; [|done].
  by destruct (H v eq_refl) as [s ->].
Qed.

Lemma date_of_inv (e : entry) (err : exn) (s : string) :
  date_of e err = Ok s → date_is_string e ∧ s = entry_date e.
Proof.
  unfold date_is_string, date_of, entry_date.
  destruct (e !! "fiscalDateEnding") as [[]|]; intros [= <-]; naive_solver.
Qed.

Lemma mapM_length {A B} (f : A → res B) (l : list A) (k : list B) :
  mapM f l = Ok k → length k = length l.
Proof. intros H%mapM_Ok. symmetry. by eapply Forall2_length. Qed.





Lemma annual_series_nil (value : entry → res (option R)) :
  annual_series value [] = Ok [].
Proof. reflexivity. Qed.

(** ** EPS *)

Section eps_properties.
Variable float_of_str : string → option R.

Lemma eps_change_returns (quarterly : list entry) (latest_eps : R) (k : nat) :
  returns (eps_change float_of_str quarterly latest_eps k).
Proof.
  unfold eps_change. destruct (decide (k < length quarterly)%nat) as [Hk|];
    [|by eexists].
  destruct (lookup_lt_is_Some_2 _ _ Hk) as [q Hq].
  rewrite (index_Ok _ _ _ Hq), bind_Ok.
  destruct (field float_of_str q "reportedEPS") as [e|]; [|by eexists].
  destruct (decide (e ≠ 0)); [|by eexists].
  rewrite pct_change_Ok, bind_Ok by (by apply Rabs_no_R0). by eexists.
Qed.

Lemma beat_miss_of_returns (q : entry) :
  returns (beat_miss_of float_of_str q).
Proof.
  unfold beat_miss_of.
  destruct (field float_of_str q "reportedEPS") as [reported|];
    [|by eexists].
  destruct (field float_of_str q "estimatedEPS") as [estimated|];
    [|by eexists].
  destruct (decide (estimated ≠ 0)).
  - rewrite pct_change_Ok, !bind_Ok by (by apply Rabs_no_R0). by eexists.
  - rewrite bind_Ok. by eexists.
Qed.

Lemma beat_miss_history_returns (quarterly : list entry) :
  returns (mapM (beat_miss_of float_of_str) quarterly).
Proof.
  apply mapM_returns, Forall_forall. intros q _. apply beat_miss_of_returns.
Qed.

Lemma outlier_labels_series_returns (series : list (string * R)) :
  returns (outlier_labels series.*1 series.*2).
Proof. apply outlier_labels_returns. by rewrite !length_fmap. Qed.

Hint Resolve eps_change_returns beat_miss_history_returns
  outlier_labels_series_returns : returns.

(** A payload with two quarters, the latest of them reported, gives a
    record as soon as the loop over the annual entries ends. *)
Lemma eps_record (data : earnings) (q0 : entry) (x : R)
    (series : list (string * R)) :
  (2 ≤ length (quarterlyEarnings data))%nat →
  head (quarterlyEarnings data) = Some q0 →
  field float_of_str q0 "reportedEPS" = Some x →
  annual_series (λ e, Ok (field float_of_str e "reportedEPS"))
                (annualEarnings data) = Ok series →
  returns_with (calculate_eps_stats float_of_str (Some data))
    (λ o, ∃ r, o = Some r
               ∧ Eps.latest r = x
               ∧ Eps.ttm r = ttm_of float_of_str (quarterlyEarnings data)
               ∧ Eps.annual_years r = series.*1
               ∧ Eps.annual_values r = series.*2).
Proof.
  intros Hlen Hq0 Hx Hseries. unfold calculate_eps_stats. cbv zeta.
  rewrite decide_False.
  2:{ intros [Hnil|?]; [|lia]. rewrite Hnil in Hlen. simpl in Hlen. lia. }
  rewrite (index_first _ _ Hq0), bind_Ok, Hx.
  chain. rewrite Hseries, bind_Ok. chain.
  apply returns_with_Ok. eexists. split; [done|]. done.
Qed.

(** What a returned EPS record says about the payload. *)
Lemma eps_inv (earnings_data : option earnings) (r : Eps.stats) :
  calculate_eps_stats float_of_str earnings_data = Ok (Some r) →
  ∃ data series,
    earnings_data = Some data
    ∧ (2 ≤ length (quarterlyEarnings data))%nat
    ∧ annual_series (λ e, Ok (field float_of_str e "reportedEPS"))
                    (annualEarnings data) = Ok series
    ∧ Eps.ttm r = ttm_of float_of_str (quarterlyEarnings data)
    ∧ Eps.annual_years r = series.*1
    ∧ Eps.annual_values r = series.*2.
Proof.
  unfold calculate_eps_stats. cbv zeta. intros H.
  destruct earnings_data as [data|]; [|done].
  destruct (decide _) as [|Hq] in H; [done|].
  apply bind_returns in H as (q0 & Hq0 & H).
  destruct (field float_of_str q0 "reportedEPS") as [x|]; [|done].
  unchain H. injection H as <-. simpl.
  exists data. eexists. split; [done|]. split; [|by eauto 6].
  destruct (decide (length (quarterlyEarnings data) < 2)%nat); [|lia].
  destruct Hq. by right.
Qed.

End eps_properties.

(** ** Revenue and margin *)

Section income_properties.
Variable float_of_str : string → option R.
Variable current_year : string.

Lemma ytd_filter_returns (reports : list entry) :
  dates_ok reports → returns (ytd_filter current_year reports).
Proof.
  intros Hd. unfold ytd_filter. apply returns_bind; [|by eexists].
  apply mapM_returns. eapply Forall_impl; [exact Hd|]. intros r Hr. simpl.
  rewrite (date_of_returns _ _ Hr), bind_Ok. by eexists.
Qed.

Lemma revenue_record (data : income) (series : list (string * R)) :
  annual_series (λ r, Ok (field float_of_str r "totalRevenue"))
                (annualReports data) = Ok series →
  (2 ≤ length series)%nat →
  dates_ok (quarterlyReports data) →
  returns_with (calculate_revenue_stats float_of_str current_year (Some data))
    (λ o, ∃ r, o = Some r
               ∧ Revenue.annual_years r = series.*1
               ∧ Revenue.annual_values r = series.*2).
Proof.
  intros Hseries Hlen Hq. unfold calculate_revenue_stats. cbv zeta.
  rewrite decide_False.
  2:{ intros Hnil. rewrite Hnil, annual_series_nil in Hseries.
      injection Hseries as <-. simpl in Hlen. lia. }
  rewrite Hseries, bind_Ok.
  rewrite decide_False by (rewrite length_fmap; lia).
  assert (Hy := ytd_filter_returns _ Hq).
  assert (Ho := outlier_labels_series_returns series).
  chain_with idtac.
  apply returns_with_Ok. eexists. split; [done|]. done.
Qed.

Lemma revenue_inv (income_data : option income) (r : Revenue.stats) :
  calculate_revenue_stats float_of_str current_year income_data = Ok (Some r) →
  ∃ data series,
    income_data = Some data
    ∧ annual_series (λ r, Ok (field float_of_str r "totalRevenue"))
                    (annualReports data) = Ok series
    ∧ Revenue.annual_years r = series.*1
    ∧ Revenue.annual_values r = series.*2.
Proof.
  unfold calculate_revenue_stats. cbv zeta. intros H.
  destruct income_data as [data|]; [|done].
  destruct (decide _) as [|Ha] in H; [done|].
  apply bind_returns in H as (series & Hseries & H).
  destruct (decide _) as [|Hlen] in H; [done|].
  unchain H. injection H as <-. simpl. eauto 6.
Qed.

Lemma margin_of_returns (r : entry) : returns (margin_of float_of_str r).
Proof. apply pct_returns. Qed.

Lemma margin_record (data : income) (series : list (string * R)) :
  annual_series (margin_of float_of_str) (annualReports data) = Ok series →
  (2 ≤ length series)%nat →
  dates_ok (quarterlyReports data) →
  returns_with (calculate_margin_stats float_of_str current_year (Some data))
    (λ o, ∃ r, o = Some r
               ∧ Margin.annual_years r = series.*1
               ∧ Margin.annual_values r = series.*2).
Proof.
  intros Hseries Hlen Hq. unfold calculate_margin_stats. cbv zeta.
  rewrite decide_False.
  2:{ intros Hnil. rewrite Hnil, annual_series_nil in Hseries.
      injection Hseries as <-. simpl in Hlen. lia. }
  rewrite Hseries, bind_Ok.
  rewrite decide_False by (rewrite length_fmap; lia).
  assert (Hy := ytd_filter_returns _ Hq).
  assert (Ho := outlier_labels_series_returns series).
  chain_with idtac.
  apply returns_with_Ok. eexists. split; [done|]. done.
Qed.

Lemma margin_inv (income_data : option income) (r : Margin.stats) :
  calculate_margin_stats float_of_str current_year income_data = Ok (Some r) →
  ∃ data series,
    income_data = Some data
    ∧ annual_series (margin_of float_of_str) (annualReports data) = Ok series
    ∧ Margin.annual_years r = series.*1
    ∧ Margin.annual_values r = series.*2.
Proof.
  unfold calculate_margin_stats. cbv zeta. intros H.
  destruct income_data as [data|]; [|done].
  destruct (decide _) as [|Ha] in H; [done|].
  apply bind_returns in H as (series & Hseries & H).
  destruct (decide _) as [|Hlen] in H; [done|].
  unchain H. injection H as <-. simpl. eauto 6.
Qed.

End income_properties.

(** ** Sorted keys *)

Lemma elem_of_sorted_keys (d : gmap string R) (y : string) :
  y ∈ sorted_keys d ↔ is_Some (d !! y).
Proof.
  unfold sorted_keys. rewrite merge_sort_Permutation, elem_of_elements.
  apply elem_of_dom.
Qed.

Lemma sorted_keys_sorted (d : gmap string R) :
  StronglySorted String.le (sorted_keys d).
Proof. apply StronglySorted_merge_sort; apply _. Qed.


Lemma StronglySorted_take {A} (Rel : relation A) (n : nat) (l : list A) :
  StronglySorted Rel l → StronglySorted Rel (take n l).
Proof.
  revert n. induction l as [|x l IH]; intros [|n] Hs; simpl; try constructor.
  - apply IH. by apply StronglySorted_inv in Hs as [? _].
  - apply StronglySorted_inv in Hs as [_ Hall]. by apply Forall_take.
Qed.

(** ** Maximum and minimum *)

Lemma max_float_spec (x : R) (l : list R) :
  max_float x l ∈ x :: l ∧ Forall (λ y, y <= max_float x l) (x :: l).
Proof.
  unfold max_float. revert x. induction l as [|y l IH]; intros x; simpl.
  - split; [left|]. apply Forall_cons_2; [lra|constructor].
  - destruct (decide (y > x)) as [Hgt|Hle].
    + destruct (IH y) as [Hin Hall]. split.
      * right. exact Hin.
      * apply Forall_cons in Hall as [Hy Hl].
        apply Forall_cons_2; [lra|]. apply Forall_cons_2; [lra|done].
    + destruct (IH x) as [Hin Hall]. split.
      * apply elem_of_cons in Hin as [->|Hin]; [left|right; by right].
      * apply Forall_cons in Hall as [Hx Hl].
        apply Forall_cons_2; [lra|]. apply Forall_cons_2; [lra|done].
Qed.

Lemma min_float_spec (x : R) (l : list R) :
  min_float x l ∈ x :: l ∧ Forall (λ y, min_float x l <= y) (x :: l).
Proof.
  unfold min_float. revert x. induction l as [|y l IH]; intros x; simpl.
  - split; [left|]. apply Forall_cons_2; [lra|constructor].
  - destruct (decide (y < x)) as [Hgt|Hle].
    + destruct (IH y) as [Hin Hall]. split.
      * right. exact Hin.
      * apply Forall_cons in Hall as [Hy Hl].
        apply Forall_cons_2; [lra|]. apply Forall_cons_2; [lra|done].
    + destruct (IH x) as [Hin Hall]. split.
      * apply elem_of_cons in Hin as [->|Hin]; [left|right; by right].
      * apply Forall_cons in Hall as [Hx Hl].
        apply Forall_cons_2; [lra|]. apply Forall_cons_2; [lra|done].
Qed.

(** ** Price *)

Section price_properties.
Variable float_of_str : string → option R.

Lemma mapM_getitem_returns (d : gmap string R) (keys : list string) :
  Forall (λ y, is_Some (d !! y)) keys → returns (mapM (getitem d) keys).
Proof.
  intros H. apply mapM_returns. eapply Forall_impl; [exact H|].
  intros y [v Hv]. unfold getitem. rewrite Hv. by eexists.
Qed.

Lemma sorted_years_returns (d : gmap string R) (n : nat) :
  returns (mapM (getitem d) (drop n (sorted_keys d))).
Proof.
  apply mapM_getitem_returns, Forall_drop, Forall_forall.
  intros y. apply elem_of_sorted_keys.
Qed.

Lemma price_record (ts : time_series) :
  (2 ≤ length (monthly_closes float_of_str ts))%nat →
  returns_with (calculate_price_stats float_of_str (Some ts))
    (λ o, ∃ r, o = Some r).
Proof.
  intros Hlen. unfold calculate_price_stats. cbv zeta.
  rewrite decide_False.
  2:{ intros ->. unfold monthly_closes in Hlen.
      rewrite map_to_list_empty in Hlen. simpl in Hlen. lia. }
  rewrite decide_False by lia.
  set (monthly := take 60 (monthly_closes float_of_str ts)).
  assert (Hm : (2 ≤ length monthly)%nat).
  { unfold monthly. rewrite length_take. lia. }
  chain_with ltac:(first
    [ apply sorted_years_returns
    | apply outlier_labels_returns;
      match goal with H : mapM _ _ = Ok _ |- _ =>
        apply mapM_length in H; by rewrite H end ]).
  apply returns_with_Ok. by eexists.
Qed.

Lemma change_block (closes : list R) (current : R) (k : nat) (a : option R) :
  (if decide (k < length closes)%nat
   then c ← index closes (Z.of_nat k);
        if decide (c ≠ 0)
        then r ← pct_change current c c; Ok (Some r)
        else Ok None
   else Ok None) = Ok a →
  a = match closes !! k with
      | Some c => if decide (c ≠ 0)
                  then Some (round_float ((current - c) / c * 100) 2)
                  else None
      | None => None
      end.
Proof.
  destruct (decide (k < length closes)%nat) as [Hk|Hk].
  - destruct (lookup_lt_is_Some_2 _ _ Hk) as [c Hc].
    rewrite (index_Ok _ _ _ Hc), bind_Ok, Hc.
    destruct (decide (c ≠ 0)) as [Hne|]; [|by intros [= <-]].
    rewrite (pct_change_Ok _ _ _ Hne), bind_Ok. by intros [= <-].
  - rewrite (lookup_ge_None_2 closes k) by lia. by intros [= <-].
Qed.

Lemma take_min_length {A} (n : nat) (l : list A) :
  take (n `min` length l) l = take n l.
Proof.
  destruct (decide (n ≤ length l)%nat).
  - by rewrite Nat.min_l.
  - rewrite Nat.min_r by lia. by rewrite !take_ge by lia.
Qed.

(** What a returned price record says about the payload. *)
Lemma price_inv (price_data : option time_series) (r : Price.stats) :
  calculate_price_stats float_of_str price_data = Ok (Some r) →
  ∃ ts, price_data = Some ts
    ∧ (2 ≤ length (monthly_closes float_of_str ts))%nat
    ∧ (take 60 (monthly_closes float_of_str ts)).*2 !! 0%nat
      = Some (Price.current r)
    ∧ Price.vs_yoy_pct r =
      match (take 60 (monthly_closes float_of_str ts)).*2 !! 12%nat with
      | Some c => if decide (c ≠ 0)
                  then Some (round_float ((Price.current r - c) / c * 100) 2)
                  else None
      | None => None
      end
    ∧ Price.high_52w r =
      match take 12 (take 60 (monthly_closes float_of_str ts)).*2 with
      | [] => None
      | x :: l => Some (max_float x l)
      end
    ∧ Price.low_52w r =
      match take 12 (take 60 (monthly_closes float_of_str ts)).*2 with
      | [] => None
      | x :: l => Some (min_float x l)
      end
    ∧ ∃ d, Price.annual_years r
           = drop (length (sorted_keys d) - YEARS_TO_ANALYZE) (sorted_keys d)
         ∧ mapM (getitem d) (Price.annual_years r)
           = Ok (Price.annual_values r).
Proof.
  unfold calculate_price_stats. cbv zeta. intros H.
  destruct price_data as [ts|]; [|done]. exists ts. split; [done|].
  destruct (decide _) as [|Hts] in H; [done|].
  destruct (decide _) as [|Hlen] in H; [done|].
  set (closes := (take 60 (monthly_closes float_of_str ts)).*2) in *.
  rewrite take_min_length in H.
  apply bind_returns in H as (current & Hcur & H).
  apply bind_returns in H as (vs_3mo & H3 & H).
  apply bind_returns in H as (vs_yoy & Hyoy & H).
  apply (change_block closes current 12) in Hyoy.
  unchain H. injection H as <-. simpl.
  split; [lia|]. split.
  { unfold index in Hcur. simpl in Hcur.
    change (Z.to_nat 0) with 0%nat in Hcur.
    destruct (closes !! 0%nat) as [c|]; by simplify_eq. }
  split; [done|]. split; [done|]. split; [done|]. eauto.
Qed.

End price_properties.

(** ** P/E *)

Lemma mapM_fmap_Ok {A B} (f : A → res B) (g : A → B) (l : list A) :
  Forall (λ x, f x = Ok (g x)) l → mapM f l = Ok (g <$> l).
Proof.
  intros H. apply mapM_Ok. induction H; constructor; done.
Qed.

Lemma omap_id_fmap {A B} (g : A → option B) (l : list A) :
  omap (λ o : option B, o) (g <$> l) = omap g l.
Proof.
  induction l as [|x l IH]; [done|]. csimpl. rewrite IH. done.
Qed.

Lemma pe_point_value (price_annual eps_annual : gmap string R) (y : string) :
  is_Some (price_annual !! y) → is_Some (eps_annual !! y) →
  pe_point price_annual eps_annual y = Ok (pe_value price_annual eps_annual y).
Proof.
  intros [p Hp] [e He]. unfold pe_point, pe_value, getitem.
  rewrite Hp, He, !bind_Ok. destruct (decide (e > 0)) as [Hpos|]; [|done].
  rewrite (div_float_Ok p e), bind_Ok by lra. done.
Qed.

Lemma pe_series_eq (price_stats : Price.stats) (eps_stats : Eps.stats) :
  pe_series price_stats eps_stats =
  Ok (omap (pe_value
              (dict_of_zip (Price.annual_years price_stats)
                           (Price.annual_values price_stats))
              (dict_of_zip (Eps.annual_years eps_stats)
                           (Eps.annual_values eps_stats)))
           (merge_sort String.le
              (elements
                 (dom (dict_of_zip (Price.annual_years price_stats)
                                   (Price.annual_values price_stats))
                  ∩ dom (dict_of_zip (Eps.annual_years eps_stats)
                                     (Eps.annual_values eps_stats)))))).
Proof.
  unfold pe_series. cbv zeta.
  set (pa := dict_of_zip (Price.annual_years price_stats) _).
  set (ea := dict_of_zip (Eps.annual_years eps_stats) _).
  rewrite (mapM_fmap_Ok _ (pe_value pa ea)).
  - rewrite bind_Ok. by rewrite omap_id_fmap.
  - apply Forall_forall. intros y Hy.
    rewrite merge_sort_Permutation, elem_of_elements, elem_of_intersection
      in Hy.
    destruct Hy as [Hp He]. apply elem_of_dom in Hp, He.
    by apply pe_point_value.
Qed.






Lemma trailing_pe_of_eq (current_price : R) (ttm_eps : option R) :
  trailing_pe_of current_price ttm_eps =
  Ok (match ttm_eps with
      | Some t => if decide (current_price ≠ 0 ∧ t ≠ 0 ∧ t > 0)
                  then Some (round_float (current_price / t) 2)
                  else None
      | None => None
      end).
Proof.
  unfold trailing_pe_of. destruct ttm_eps as [t|]; [|done].
  destruct (decide _) as [(_ & Ht & _)|]; [|done].
  by rewrite (div_float_Ok _ t Ht), bind_Ok.
Qed.

Lemma trailing_pe_of_returns (current_price : R) (ttm_eps : option R) :
  returns (trailing_pe_of current_price ttm_eps).
Proof. eexists. apply trailing_pe_of_eq. Qed.

Lemma pe_series_returns (price_stats : Price.stats) (eps_stats : Eps.stats) :
  returns (pe_series price_stats eps_stats).
Proof. eexists. apply pe_series_eq. Qed.

#[export] Hint Resolve trailing_pe_of_returns pe_series_returns
  outlier_labels_series_returns : returns.

(** The P/E calculator gives a record for every pair of records. *)
Lemma pe_record (price_stats : Price.stats) (eps_stats : Eps.stats) :
  returns_with (calculate_pe_stats (Some price_stats) (Some eps_stats))
    (λ o, ∃ r, o = Some r).
Proof.
  unfold calculate_pe_stats. cbv zeta.
  chain_with idtac.
  apply returns_with_Ok. by eexists.
Qed.

Lemma pe_inv (price_stats : option Price.stats) (eps_stats : option Eps.stats)
    (r : Pe.stats) :
  calculate_pe_stats price_stats eps_stats = Ok (Some r) →
  ∃ ps es series,
    price_stats = Some ps ∧ eps_stats = Some es
    ∧ pe_series ps es = Ok series
    ∧ trailing_pe_of (Price.current ps) (Eps.ttm es) = Ok (Pe.trailing_pe r)
    ∧ Pe.annual_years r = series.*1
    ∧ Pe.annual_values r = series.*2.
Proof.
  unfold calculate_pe_stats. cbv zeta. intros H.
  destruct price_stats as [ps|], eps_stats as [es|]; try done.
  unchain H. injection H as <-. simpl. eauto 10.
Qed.





(** ** Rounding *)

Lemma Int_part_IZR (z : Z) : Int_part (IZR z) = z.
Proof. symmetry. apply Int_part_spec. lra. Qed.

Lemma round_half_even_IZR (z : Z) : round_half_even (IZR z) = z.
Proof.
  unfold round_half_even. cbv zeta. rewrite Int_part_IZR.
  rewrite decide_True by lra. done.
Qed.

Lemma round_float_exact (x : R) (ndigits : nat) (z : Z) :
  x * 10 ^ ndigits = IZR z → round_float x ndigits = x.
Proof.
  intros H. unfold round_float. rewrite H, round_half_even_IZR, <- H.
  field. apply pow_nonzero. lra.
Qed.

(** ** The price record *)

Global Instance date_desc_trans : Transitive date_desc.
Proof. intros a b c Hab Hbc. unfold date_desc in *. by etrans. Qed.
Global Instance date_desc_total : Total date_desc.
Proof. intros a b. unfold date_desc. apply total, _. Qed.

Lemma monthly_closes_sorted (float_of_str : string → option R)
    (ts : time_series) :
  StronglySorted date_desc (monthly_closes float_of_str ts).
Proof. apply StronglySorted_merge_sort; apply _. Qed.

(** C5. In a price record the year-over-year change compares the newest
    close with the thirteenth: it is [(closes[0] - closes[12]) / closes[12]
    * 100] rounded to two decimals, and absent when there are fewer than
    thirteen closes or the thirteenth is 0.  The 52-week high and low are
    the greatest and the least of the twelve newest closes.  The closes are
    those of the months with a valid adjusted close, newest first. *)
Theorem price_yoy_and_52w (float_of_str : string → option R)
    (price_data : option time_series) (r : Price.stats) :
  calculate_price_stats float_of_str price_data = Ok (Some r) →
  ∃ ts, price_data = Some ts
    ∧ StronglySorted date_desc (take 60 (monthly_closes float_of_str ts))
    ∧ (take 60 (monthly_closes float_of_str ts)).*2 !! 0%nat
      = Some (Price.current r)
    ∧ Price.vs_yoy_pct r =
      match (take 60 (monthly_closes float_of_str ts)).*2 !! 12%nat with
      | Some c12 =>
          if decide (c12 = 0) then None
          else Some (round_float ((Price.current r - c12) / c12 * 100) 2)
      | None => None
      end
    ∧ (∃ h, Price.high_52w r = Some h
            ∧ h ∈ take 12 (take 60 (monthly_closes float_of_str ts)).*2
            ∧ Forall (λ c, c <= h)
                     (take 12 (take 60 (monthly_closes float_of_str ts)).*2))
    ∧ (∃ l, Price.low_52w r = Some l
            ∧ l ∈ take 12 (take 60 (monthly_closes float_of_str ts)).*2
            ∧ Forall (λ c, l <= c)
                     (take 12 (take 60 (monthly_closes float_of_str ts)).*2)).
Proof.
  intros H.
  apply price_inv in H as (ts & -> & Hlen & Hcur & Hyoy & Hhigh & Hlow & _).
  exists ts. split; [done|].
  split; [apply StronglySorted_take, monthly_closes_sorted|].
  split; [done|]. split.
  { rewrite Hyoy. destruct (_ !! 12%nat) as [c|]; [|done].
    destruct (decide (c = 0)).
    - by rewrite decide_False by tauto.
    - by rewrite decide_True. }
  set (closes := (take 60 (monthly_closes float_of_str ts)).*2) in *.
  destruct (take 12 closes) as [|x l] eqn:E.
  { assert (Hpos : (0 < length (take 12 closes))%nat).
    { unfold closes. rewrite length_take, length_fmap, length_take. lia. }
    rewrite E in Hpos. inversion Hpos. }
  split.
  - exists (max_float x l). split; [done|]. apply max_float_spec.
  - exists (min_float x l). split; [done|]. apply min_float_spec.
Qed.

Lemma thirteen_months_closes :
  (take 60 (monthly_closes parse_decimal thirteen_months)).*2
  = (λ z, 1 * IZR z / 10 ^ 1) <$>
      [1100; 1080; 1090; 1070; 1060; 1050; 1040; 1120; 1030; 1020; 1010;
       990; 1000]%Z.
Proof. vm_compute. reflexivity. Qed.

Lemma price_yoy_and_52w_witness :
  ∃ r, calculate_price_stats parse_decimal (Some thirteen_months) = Ok (Some r)
    ∧ Price.current r = 110
    ∧ Price.vs_yoy_pct r = Some 10
    ∧ ∃ ts, Some thirteen_months = Some ts
        ∧ (∃ h, Price.high_52w r = Some h
            ∧ h ∈ take 12 (take 60 (monthly_closes parse_decimal ts)).*2
            ∧ Forall (λ c, c <= h)
                (take 12 (take 60 (monthly_closes parse_decimal ts)).*2)).
Proof.
  destruct (price_record parse_decimal thirteen_months) as (o & Hr & r & ->).
  { vm_compute. lia. }
  exists r. split; [exact Hr|].
  destruct (price_yoy_and_52w parse_decimal _ r Hr)
    as (ts & Hts & _ & Hcur & Hyoy & Hhigh & _).
  injection Hts as <-. rewrite thirteen_months_closes in Hcur, Hyoy.
  simpl in Hcur, Hyoy. injection Hcur as Hcur.
  assert (Hc : Price.current r = 110) by (rewrite <- Hcur; lra).
  split; [exact Hc|]. split.
  - rewrite Hyoy, decide_False by lra. f_equal. rewrite Hc.
    replace ((110 - 1 * 1000 / (10 * 1)) / (1 * 1000 / (10 * 1)) * 100)
      with 10 by lra.
    apply (round_float_exact 10 2 1000). simpl. lra.
  - exists thirteen_months. split; [done|]. exact Hhigh.
Defined.

(** ** Chronological order of the annual labels *)

Lemma substring_le (n : nat) (s1 s2 : string) :
  String.le s1 s2 →
  String.le (String.substring 0 n s1) (String.substring 0 n s2).
Proof.
  unfold String.le, String.leb. revert s1 s2.
  induction n as [|n IH]; intros s1 s2.
  - by destruct s1, s2.
  - destruct s1 as [|c1 s1], s2 as [|c2 s2]; simpl; try done.
    destruct (Ascii.compare c1 c2); [apply IH|done..].
Qed.

Lemma year_part_le (s1 s2 : string) :
  String.le s1 s2 → String.le (year_part s1) (year_part s2).
Proof. apply substring_le. Qed.











(** ** Insufficient input *)

Lemma eps_few_quarters (float_of_str : string → option R) (data : earnings) :
  (length (quarterlyEarnings data) < 2)%nat →
  calculate_eps_stats float_of_str (Some data) = Ok None.
Proof.
  intros Hlen. unfold calculate_eps_stats. cbv zeta.
  by rewrite decide_True by auto.
Qed.

Lemma eps_latest_missing (float_of_str : string → option R)
    (data : earnings) (q0 : entry) :
  head (quarterlyEarnings data) = Some q0 →
  field float_of_str q0 "reportedEPS" = None →
  calculate_eps_stats float_of_str (Some data) = Ok None.
Proof.
  intros Hq0 Hx. unfold calculate_eps_stats. cbv zeta.
  destruct (decide _); [done|].
  by rewrite (index_first _ _ Hq0), bind_Ok, Hx.
Qed.

Lemma revenue_no_annual (float_of_str : string → option R)
    (current_year : string) (data : income) :
  annualReports data = [] →
  calculate_revenue_stats float_of_str current_year (Some data) = Ok None.
Proof.
  intros Hnil. unfold calculate_revenue_stats. cbv zeta.
  by rewrite decide_True.
Qed.

Lemma margin_no_annual (float_of_str : string → option R)
    (current_year : string) (data : income) :
  annualReports data = [] →
  calculate_margin_stats float_of_str current_year (Some data) = Ok None.
Proof.
  intros Hnil. unfold calculate_margin_stats. cbv zeta.
  by rewrite decide_True.
Qed.

Lemma price_few_months (float_of_str : string → option R) (ts : time_series) :
  (length (monthly_closes float_of_str ts) < 2)%nat →
  calculate_price_stats float_of_str (Some ts) = Ok None.
Proof.
  intros Hlen. unfold calculate_price_stats. cbv zeta.
  destruct (decide (ts = ∅)); [done|]. by rewrite decide_True.
Qed.

Lemma eps_without_annual (float_of_str : string → option R)
    (data : earnings) (q0 : entry) (x : R) :
  annualEarnings data = [] →
  (2 ≤ length (quarterlyEarnings data))%nat →
  head (quarterlyEarnings data) = Some q0 →
  field float_of_str q0 "reportedEPS" = Some x →
  ∃ r, calculate_eps_stats float_of_str (Some data) = Ok (Some r)
    ∧ Eps.annual_years r = []
    ∧ Eps.annual_values r = [].
Proof.
  intros Hnil Hlen Hq0 Hx.
  destruct (eps_record float_of_str data q0 x [] Hlen Hq0 Hx)
    as (o & Hr & r & -> & _ & _ & Hy & Hv).
  { rewrite Hnil. apply annual_series_nil. }
  eauto.
Qed.

(** C1 (as amended). A calculator returns [None], and does not raise, when
    the input it needs first is missing: no payload at all; fewer than two
    months with a valid close for the price; fewer than two quarters, or a
    latest quarter without a reported EPS, for the EPS; no annual report
    for the revenue and for the margin; a missing price or EPS record for
    the P/E.  An earnings payload without annual entries is not such a
    case: with two quarters and a reported latest EPS the EPS calculator
    returns a record, whose annual series is empty. *)
Theorem calculators_degrade (float_of_str : string → option R)
    (current_year : string) :
  calculate_price_stats float_of_str None = Ok None
  ∧ calculate_eps_stats float_of_str None = Ok None
  ∧ calculate_revenue_stats float_of_str current_year None = Ok None
  ∧ calculate_margin_stats float_of_str current_year None = Ok None
  ∧ (∀ es, calculate_pe_stats None es = Ok None)
  ∧ (∀ ps, calculate_pe_stats ps None = Ok None)
  ∧ (∀ ts, (length (monthly_closes float_of_str ts) < 2)%nat →
           calculate_price_stats float_of_str (Some ts) = Ok None)
  ∧ (∀ data, (length (quarterlyEarnings data) < 2)%nat →
             calculate_eps_stats float_of_str (Some data) = Ok None)
  ∧ (∀ data q0, head (quarterlyEarnings data) = Some q0 →
                field float_of_str q0 "reportedEPS" = None →
                calculate_eps_stats float_of_str (Some data) = Ok None)
  ∧ (∀ data, annualReports data = [] →
             calculate_revenue_stats float_of_str current_year (Some data)
             = Ok None)
  ∧ (∀ data, annualReports data = [] →
             calculate_margin_stats float_of_str current_year (Some data)
             = Ok None)
  ∧ (∀ data q0 x,
       annualEarnings data = [] →
       (2 ≤ length (quarterlyEarnings data))%nat →
       head (quarterlyEarnings data) = Some q0 →
       field float_of_str q0 "reportedEPS" = Some x →
       ∃ r, calculate_eps_stats float_of_str (Some data) = Ok (Some r)
         ∧ Eps.annual_years r = []
         ∧ Eps.annual_values r = []).
Proof.
  repeat split; try done.
  - by intros [].
  - apply price_few_months.
  - apply eps_few_quarters.
  - apply eps_latest_missing.
  - apply revenue_no_annual.
  - apply margin_no_annual.
  - apply eps_without_annual.
Qed.

Lemma eps_none_without_annual_counterexample :
  ¬ eps_none_without_annual parse_decimal.
Proof.
  intros Hnone. specialize (Hnone earnings_without_annual eq_refl).
  destruct (eps_without_annual parse_decimal earnings_without_annual
              (quarter "2024-03-31" "1.25" "1.20") (1 * IZR 125 / 10 ^ 2)
              eq_refl (le_n 2) eq_refl eq_refl) as (r & Hr & _).
  congruence.
Qed.

(** ** Formatting *)

Section fmt_properties.
Variable str_float : R → string.

Lemma fmt_val_None (unit : string) (is_delta : bool) :
  fmt_val str_float None unit is_delta = "—".
Proof. reflexivity. Qed.

Lemma fmt_val_billions (val : R) (is_delta : bool) :
  Rabs val >= 1e9 →
  fmt_val str_float (Some val) "dollars_large" is_delta
  = delta_prefix val is_delta +:+ "$"
    +:+ format_fixed true 2 (val / 1e9) +:+ "B".
Proof.
  intros H. unfold fmt_val. cbv zeta.
  rewrite (decide_False (P := "dollars_large" = "dollars")) by done.
  rewrite (decide_True (P := "dollars_large" = "dollars_large")) by done.
  by rewrite decide_True.
Qed.

Lemma fmt_val_millions (val : R) (is_delta : bool) :
  1e6 <= Rabs val < 1e9 →
  fmt_val str_float (Some val) "dollars_large" is_delta
  = delta_prefix val is_delta +:+ "$"
    +:+ format_fixed true 1 (val / 1e6) +:+ "M".
Proof.
  intros H. unfold fmt_val. cbv zeta.
  rewrite (decide_False (P := "dollars_large" = "dollars")) by done.
  rewrite (decide_True (P := "dollars_large" = "dollars_large")) by done.
  rewrite (decide_False (P := Rabs val >= 1e9)) by lra.
  by rewrite (decide_True (P := Rabs val >= 1e6)) by lra.
Qed.

Lemma fmt_val_whole (val : R) (is_delta : bool) :
  Rabs val < 1e6 →
  fmt_val str_float (Some val) "dollars_large" is_delta
  = delta_prefix val is_delta +:+ "$" +:+ format_fixed true 0 val.
Proof.
  intros H. unfold fmt_val. cbv zeta.
  rewrite (decide_False (P := "dollars_large" = "dollars")) by done.
  rewrite (decide_True (P := "dollars_large" = "dollars_large")) by done.
  rewrite (decide_False (P := Rabs val >= 1e9)) by lra.
  by rewrite (decide_False (P := Rabs val >= 1e6)) by lra.
Qed.

End fmt_properties.

(** The digits [format_fixed] prints for a value that needs no rounding. *)
Lemma format_fixed_exact (grouping : bool) (digits : nat) (x : R) (z : Z) :
  x * 10 ^ digits = IZR z → 0 <= x →
  format_fixed grouping digits x =
  (let scaled := Z.abs_N z in
   let unit := (10 ^ N.of_nat digits)%N in
   let int_part := digits_of (scaled / unit)%N in
   (if grouping then group_thousands int_part else int_part)
   +:+ (match digits with
        | O => ""
        | _ => "." +:+ pad_zeros digits (scaled mod unit)%N
        end)).
Proof.
  intros Hz Hx. unfold format_fixed. cbv zeta.
  rewrite Hz, round_half_even_IZR. by rewrite decide_False by lra.
Qed.

Lemma Rabs_nonneg_eq (x : R) : 0 <= x → Rabs x = x.
Proof. intros H. by apply Rabs_pos_eq. Qed.

Lemma fmt_val_1_5_billion (str_float : R → string) :
  fmt_val str_float (Some 1500000000) "dollars_large" false = "$1.50B".
Proof.
  rewrite fmt_val_billions by (rewrite Rabs_nonneg_eq; lra).
  rewrite (format_fixed_exact true 2 _ 150) by (simpl; lra).
  unfold delta_prefix. rewrite decide_False by (by intros [? _]).
  reflexivity.
Qed.

Lemma fmt_val_2_5_million (str_float : R → string) :
  fmt_val str_float (Some 2500000) "dollars_large" false = "$2.5M".
Proof.
  rewrite fmt_val_millions by (rewrite Rabs_nonneg_eq; lra).
  rewrite (format_fixed_exact true 1 _ 25) by (simpl; lra).
  unfold delta_prefix. rewrite decide_False by (by intros [? _]).
  reflexivity.
Qed.

Lemma fmt_val_1_million (str_float : R → string) :
  fmt_val str_float (Some 1000000) "dollars_large" false = "$1.0M".
Proof.
  rewrite fmt_val_millions by (rewrite Rabs_nonneg_eq; lra).
  rewrite (format_fixed_exact true 1 _ 10) by (simpl; lra).
  unfold delta_prefix. rewrite decide_False by (by intros [? _]).
  reflexivity.
Qed.

Lemma format_fixed_1_million :
  format_fixed true 0 1000000 = "1,000,000".
Proof.
  rewrite (format_fixed_exact true 0 _ 1000000) by (simpl; lra).
  reflexivity.
Qed.

(** C6 (as amended). [fmt_val] renders [None] as the em-dash whatever the
    unit.  For the unit [dollars_large] it renders a value of magnitude at
    least 1e9 in billions with two decimals and a [B], of magnitude at
    least 1e6 and below 1e9 in millions with one decimal and an [M], and
    any other value in whole dollars, after the sign of a positive delta
    and a dollar sign. *)
Theorem fmt_val_spec (str_float : R → string) :
  (∀ unit is_delta, fmt_val str_float None unit is_delta = "—")
  ∧ (∀ val is_delta,
       Rabs val >= 1e9 →
       fmt_val str_float (Some val) "dollars_large" is_delta
       = delta_prefix val is_delta +:+ "$"
         +:+ format_fixed true 2 (val / 1e9) +:+ "B")
  ∧ (∀ val is_delta,
       1e6 <= Rabs val < 1e9 →
       fmt_val str_float (Some val) "dollars_large" is_delta
       = delta_prefix val is_delta +:+ "$"
         +:+ format_fixed true 1 (val / 1e6) +:+ "M")
  ∧ (∀ val is_delta,
       Rabs val < 1e6 →
       fmt_val str_float (Some val) "dollars_large" is_delta
       = delta_prefix val is_delta +:+ "$" +:+ format_fixed true 0 val)
  ∧ fmt_val str_float (Some 1500000000) "dollars_large" false = "$1.50B"
  ∧ fmt_val str_float (Some 2500000) "dollars_large" false = "$2.5M"
  ∧ fmt_val str_float None "percent" false = "—".
Proof.
  split; [apply fmt_val_None|].
  split; [apply fmt_val_billions|].
  split; [apply fmt_val_millions|].
  split; [apply fmt_val_whole|].
  split; [apply fmt_val_1_5_billion|].
  split; [apply fmt_val_2_5_million|].
  apply fmt_val_None.
Qed.

Lemma dollars_large_strict_counterexample : ¬ dollars_large_strict.
Proof.
  intros H. destruct (H (λ _, "") 1000000) as (_ & _ & Hwhole).
  rewrite fmt_val_1_million, format_fixed_1_million in Hwhole.
  assert (Heq : "$1.0M" = "$" +:+ "1,000,000").
  { apply Hwhole. rewrite Rabs_nonneg_eq; lra. }
  vm_compute in Heq. discriminate Heq.
Qed.

(** ** The calculators never raise

    On every payload whose period-end dates are strings (or missing) each
    calculator returns [None] or a record. *)

Section totality.
Variable float_of_str : string → option R.
Variable current_year : string.






End totality.

(** ** Records of the example payloads *)

Lemma report_dates_ok (date revenue operating_income : string) :
  date_is_string (report date revenue operating_income).
Proof.
  intros v Hv. unfold report in Hv.
  rewrite lookup_insert_eq in Hv. injection Hv as <-. eauto.
Qed.

Lemma income_two_years_revenue :
  ∃ r, calculate_revenue_stats parse_decimal "2024" (Some income_two_years)
       = Ok (Some r)
    ∧ Revenue.annual_years r = ["2022"; "2023"]
    ∧ length (Revenue.annual_values r) = 2%nat.
Proof.
  assert (Hs : ∃ x1 x2,
    annual_series (λ r, Ok (field parse_decimal r "totalRevenue"))
                  (annualReports income_two_years)
    = Ok [("2022", x1); ("2023", x2)]).
  { do 2 eexists. vm_compute. reflexivity. }
  destruct Hs as (x1 & x2 & Hs).
  destruct (revenue_record parse_decimal "2024" income_two_years _ Hs)
    as (o & Hr & r & -> & Hy & Hv).
  { simpl. lia. }
  { repeat constructor; apply report_dates_ok. }
  exists r. rewrite Hy, Hv. done.
Qed.

Lemma pct_Some (num denom : R) :
  denom ≠ 0 →
  pct (Some num) (Some denom) None
  = Ok (Some (round_float (num / denom * 100) 2)).
Proof.
  intros Hd. unfold pct, safe_divide. rewrite decide_False by done.
  by rewrite (div_float_Ok num denom Hd), !bind_Ok.
Qed.

Lemma income_two_years_margin :
  ∃ r, calculate_margin_stats parse_decimal "2024" (Some income_two_years)
       = Ok (Some r)
    ∧ Margin.annual_years r = ["2022"; "2023"]
    ∧ length (Margin.annual_values r) = 2%nat.
Proof.
  assert (Hs : ∃ x1 x2,
    annual_series (margin_of parse_decimal) (annualReports income_two_years)
    = Ok [("2022", x1); ("2023", x2)]).
  { do 2 eexists. unfold annual_series, annual_point, margin_of. simpl.
    change (field parse_decimal (report "2023-12-31" "2000000000" "500000000")
              "operatingIncome") with (Some (1 * 500000000 / 10 ^ 0)).
    change (field parse_decimal (report "2023-12-31" "2000000000" "500000000")
              "totalRevenue") with (Some (1 * 2000000000 / 10 ^ 0)).
    change (field parse_decimal (report "2022-12-31" "1600000000" "320000000")
              "operatingIncome") with (Some (1 * 320000000 / 10 ^ 0)).
    change (field parse_decimal (report "2022-12-31" "1600000000" "320000000")
              "totalRevenue") with (Some (1 * 1600000000 / 10 ^ 0)).
    rewrite !pct_Some by (simpl; lra). reflexivity. }
  destruct Hs as (x1 & x2 & Hs).
  destruct (margin_record parse_decimal "2024" income_two_years _ Hs)
    as (o & Hr & r & -> & Hy & Hv).
  { simpl. lia. }
  { repeat constructor; apply report_dates_ok. }
  exists r. rewrite Hy, Hv. done.
Qed.

(** Prices of 150 and 130 for 2021 and 2022, earnings of 5 and -1: the
    series keeps 2021 alone, at 30. *)
Lemma pe_series_negative_year :
  pe_series (price_record_of 130 ["2021"; "2022"] [150; 130])
            (eps_record_of (-1) None ["2021"; "2022"] [5; -1])
  = Ok [("2021", 30)].
Proof.
  rewrite pe_series_eq.
  set (pa := dict_of_zip _ _). set (ea := dict_of_zip _ _).
  assert (merge_sort String.le (elements (dom pa ∩ dom ea))
          = ["2021"; "2022"]) as -> by (vm_compute; reflexivity).
  assert (pe_value pa ea "2021" = Some ("2021", 30)) as H21.
  { unfold pe_value.
    change (pa !! "2021") with (Some 150). change (ea !! "2021") with (Some 5).
    cbv beta iota. rewrite decide_True by lra. do 2 f_equal.
    replace (150 / 5) with 30 by lra.
    apply (round_float_exact 30 2 3000). simpl. lra. }
  assert (pe_value pa ea "2022" = None) as H22.
  { unfold pe_value.
    change (pa !! "2022") with (Some 130).
    change (ea !! "2022") with (Some (-1)).
    cbv beta iota. by rewrite decide_False by lra. }
  csimpl. by rewrite H21, H22.
Qed.

(** * Further properties of the helpers *)

(** ** Sums of squares *)


Lemma sum_float_fmap_cons {A} (g : A → R) (a : A) (l : list A) :
  sum_float (g <$> a :: l) = g a + sum_float (g <$> l).
Proof. rewrite fmap_cons. apply sum_float_cons. Qed.

Lemma sum_squares_shift (m : R) (l : list R) :
  sum_float ((λ x, (x - m) ^ 2) <$> l)
  = sum_float ((λ x, x ^ 2) <$> l) - 2 * m * sum_float l
    + INR (length l) * m ^ 2.
Proof.
  induction l as [|x l IH].
  - simpl. rewrite !sum_float_nil. lra.
  - rewrite !sum_float_fmap_cons, sum_float_cons, IH.
    change (length (x :: l)) with (S (length l)). rewrite S_INR. lra.
Qed.

Lemma sum_squares_nonneg (g : R → R) (l : list R) :
  0 <= sum_float ((λ x, g x ^ 2) <$> l).
Proof.
  apply sum_float_nonneg, Forall_fmap, Forall_forall. intros y _. simpl.
  apply pow2_ge_0.
Qed.








(** * Further properties of the calculators *)

Lemma index_zero_inv {A} (l : list A) (a : A) :
  index l 0 = Ok a → head l = Some a.
Proof.
  unfold index. simpl. change (Z.to_nat 0) with 0%nat.
  rewrite head_lookup. destruct (l !! 0%nat); by intros [= <-].
Qed.

Lemma index_last_inv {A} (l : list A) (a : A) :
  index l (-1) = Ok a → last l = Some a.
Proof.
  intros H. destruct (last l) as [b|] eqn:E.
  - rewrite (index_last _ _ E) in H. congruence.
  - apply last_None in E as ->. done.
Qed.

Section fields.
Variable float_of_str : string → option R.
Variable current_year : string.

(** Every field of a returned EPS record, by the computation that gave
    it. *)
Lemma eps_fields (earnings_data : option earnings) (r : Eps.stats) :
  calculate_eps_stats float_of_str earnings_data = Ok (Some r) →
  ∃ data series q0 bm,
    earnings_data = Some data
    ∧ head (quarterlyEarnings data) = Some q0
    ∧ field float_of_str q0 "reportedEPS" = Some (Eps.latest r)
    ∧ Eps.latest_date r = get q0 "fiscalDateEnding"
    ∧ Eps.ttm r = ttm_of float_of_str (quarterlyEarnings data)
    ∧ eps_change float_of_str (quarterlyEarnings data) (Eps.latest r) 1
      = Ok (Eps.vs_prev_q_pct r)
    ∧ eps_change float_of_str (quarterlyEarnings data) (Eps.latest r) 4
      = Ok (Eps.vs_yoy_pct r)
    ∧ annual_series (λ e, Ok (field float_of_str e "reportedEPS"))
                    (annualEarnings data) = Ok series
    ∧ Eps.annual_years r = series.*1
    ∧ Eps.annual_values r = series.*2
    ∧ Eps.years_of_data r = length series
    ∧ mapM (beat_miss_of float_of_str) (take 4 (quarterlyEarnings data))
      = Ok bm
    ∧ Eps.beat_miss_history r = omap (λ o : option beat_miss, o) bm
    ∧ calculate_avg (Some <$> series.*2) = Ok (Eps.mean_5yr r)
    ∧ calculate_cagr (Some <$> series.*2) = Ok (Eps.cagr_5yr r)
    ∧ calculate_cv (Some <$> series.*2) = Ok (Eps.cv r)
    ∧ calculate_slope (Some <$> series.*2) = Ok (Eps.slope r)
    ∧ calculate_recent_delta (Some <$> series.*2) = Ok (Eps.recent_delta r)
    ∧ outlier_labels series.*1 series.*2 = Ok (Eps.outlier_years r).
Proof.
  unfold calculate_eps_stats. cbv zeta. intros H.
  destruct earnings_data as [data|]; [|done].
  destruct (decide _) as [|Hq] in H; [done|].
  apply bind_returns in H as (q0 & Hq0 & H).
  destruct (field float_of_str q0 "reportedEPS") as [x|] eqn:Hx; [|done].
  apply bind_returns in H as (vs_prev & Hprev & H).
  apply bind_returns in H as (vs_yoy & Hyoy & H).
  apply bind_returns in H as (series & Hs & H).
  apply bind_returns in H as (bm & Hbm & H).
  apply bind_returns in H as (q0' & Hq0' & H).
  apply bind_returns in H as (mean & Hmean & H).
  apply bind_returns in H as (cagr & Hcagr & H).
  apply bind_returns in H as (cv & Hcv & H).
  apply bind_returns in H as (slope & Hslope & H).
  apply bind_returns in H as (rd & Hrd & H).
  apply bind_returns in H as (out & Hout & H).
  injection H as <-. simpl.
  assert (q0' = q0) as -> by congruence.
  apply index_zero_inv in Hq0.
  exists data, series, q0, bm. rewrite length_fmap. by repeat split.
Qed.

End fields.


Section outliers.
Variable float_of_str : string → option R.
Variable current_year : string.


End outliers.

(** ** The slope *)

Lemma sum_float_fmap_ext {A} (g h : A → R) (l : list A) :
  Forall (λ a, g a = h a) l → sum_float (g <$> l) = sum_float (h <$> l).
Proof.
  induction 1 as [|a l Ha _ IH]; [done|].
  by rewrite !sum_float_fmap_cons, Ha, IH.
Qed.



Lemma sum_float_zero (l : list R) :
  Forall (λ x, 0 <= x) l → sum_float l = 0 → Forall (λ x, x = 0) l.
Proof.
  induction 1 as [|x l Hx Hl IH]; [constructor|].
  rewrite sum_float_cons. intros Hs.
  assert (Hl' := sum_float_nonneg l Hl).
  constructor; [lra|]. apply IH. lra.
Qed.

(** The denominator of the least-squares slope is positive as soon as two
    of the abscissas differ. *)
Lemma slope_denominator_pos (xs : list R) (x1 x2 : R) :
  x1 ∈ xs → x2 ∈ xs → x1 ≠ x2 →
  0 < INR (length xs) * sum_float ((λ x, x * x) <$> xs)
      - sum_float xs * sum_float xs.
Proof.
  intros H1 H2 Hne.
  assert (Hlen : (0 < length xs)%nat).
  { destruct xs; [by apply elem_of_nil in H1 | simpl; lia]. }
  assert (Hn := INR_length_pos xs Hlen).
  set (m := mean_of xs).
  assert (Hq := sum_squares_nonneg (λ x, x - m) xs). cbv beta in Hq.
  assert (Hshift := sum_squares_shift m xs).
  assert (Hsq : sum_float ((λ x, x ^ 2) <$> xs)
                = sum_float ((λ x, x * x) <$> xs)).
  { apply sum_float_fmap_ext, Forall_forall. intros x _. simpl. lra. }
  rewrite Hsq in Hshift.
  assert (Hpos : 0 < sum_float ((λ x, (x - m) ^ 2) <$> xs)).
  { destruct Hq as [Hq|Hq]; [done|]. exfalso.
    symmetry in Hq. apply sum_float_zero in Hq.
    - rewrite Forall_fmap, Forall_forall in Hq.
      assert (Hx1 := Hq x1 H1). assert (Hx2 := Hq x2 H2). simpl in Hx1, Hx2.
      apply Rmult_integral in Hx1, Hx2. apply Hne. lra.
    - apply Forall_fmap, Forall_forall. intros x _. simpl. apply pow2_ge_0. }
  set (n := INR (length xs)) in *. set (s := sum_float xs) in *.
  set (q := sum_float ((λ x, x * x) <$> xs)) in *.
  assert (Hm : m = s / n) by reflexivity.
  assert (Heq : n * (q - 2 * m * s + n * m ^ 2) = n * q - s * s).
  { rewrite Hm. field. lra. }
  rewrite Hshift in Hpos.
  assert (0 < n * (q - 2 * m * s + n * m ^ 2)) by (apply Rmult_lt_0_compat; lra).
  lra.
Qed.

Lemma two_positions (values : list (option R)) :
  (2 ≤ length (clean_indexed values))%nat →
  ∃ p1 p2, p1 ∈ clean_indexed values ∧ p2 ∈ clean_indexed values
           ∧ p1.1 ≠ p2.1.
Proof.
  intros Hlen. assert (Hs := clean_from_sorted 0 values).
  fold (enumerate values) in Hs. fold (clean_indexed values) in Hs.
  destruct (clean_indexed values) as [|p1 [|p2 l]]; simpl in Hlen; try lia.
  exists p1, p2. split; [left|]. split; [right; left|].
  rewrite !fmap_cons in Hs. apply StronglySorted_inv in Hs as [_ Hall].
  apply Forall_cons in Hall as [Hlt _]. lia.
Qed.

Lemma calculate_slope_eq (values : list (option R)) :
  calculate_slope values =
  Ok (if decide (length (clean_values values) < 2)%nat then None
      else
        let clean := clean_indexed values in
        let n := INR (length clean) in
        let sum_x := sum_float ((λ p, INR p.1) <$> clean) in
        let sum_y := sum_float ((λ p, p.2) <$> clean) in
        let sum_xy := sum_float ((λ p, INR p.1 * p.2) <$> clean) in
        let sum_x2 := sum_float ((λ p, INR p.1 * INR p.1) <$> clean) in
        Some (round_float
                ((n * sum_xy - sum_x * sum_y) / (n * sum_x2 - sum_x * sum_x))
                2)).
Proof.
  unfold calculate_slope. cbv zeta. rewrite clean_indexed_length.
  destruct (decide (length (clean_values values) < 2)%nat) as [|Hlen]; [done|].
  assert (Hd : INR (length (clean_indexed values))
               * sum_float ((λ p, INR p.1 * INR p.1) <$> clean_indexed values)
               - sum_float ((λ p, INR p.1) <$> clean_indexed values)
                 * sum_float ((λ p, INR p.1) <$> clean_indexed values) ≠ 0).
  { destruct (two_positions values) as (p1 & p2 & H1 & H2 & Hne).
    { rewrite clean_indexed_length. lia. }
    assert (Hpos := slope_denominator_pos
      ((λ p : nat * R, INR p.1) <$> clean_indexed values)
      (INR p1.1) (INR p2.1)).
    rewrite length_fmap, <- list_fmap_compose in Hpos.
    apply Rgt_not_eq, Hpos.
    - apply list_elem_of_fmap. eauto.
    - apply list_elem_of_fmap. eauto.
    - intros Heq. by apply INR_eq in Heq. }
  rewrite clean_indexed_length in Hd. rewrite decide_False by done.
  by rewrite (div_float_Ok _ _ Hd), bind_Ok.
Qed.

(** X3. [calculate_slope] never raises and returns [None] exactly when
    fewer than two entries are not [None]: the positions of two entries
    differ, so the denominator of the regression is never 0 and its guard
    never fires. *)
Theorem calculate_slope_none_iff (values : list (option R)) :
  ∃ r, calculate_slope values = Ok r
    ∧ (r = None ↔ (length (clean_values values) < 2)%nat).
Proof.
  eexists. split; [apply calculate_slope_eq|].
  destruct (decide (length (clean_values values) < 2)%nat); split; done.
Qed.



(** ** Volatility, last change and the helpers as a whole *)





Lemma calculate_recent_delta_eq (values : list (option R)) (l : list R)
    (prior recent : R) :
  clean_values values = l ++ [prior; recent] →
  calculate_recent_delta values =
  Ok (Delta (Some (round_float (recent - prior) 2))
            (if decide (prior = 0) then None
             else Some (round_float
                          ((recent - prior) / Rabs prior * 100) 2))).
Proof.
  intros Hc. unfold calculate_recent_delta. cbv zeta. rewrite Hc.
  rewrite decide_False by (rewrite length_app; simpl; lia).
  rewrite (index_last _ recent).
  2:{ change (l ++ [prior; recent]) with (l ++ [prior] ++ [recent]).
      rewrite (assoc_L (++) l [prior] [recent]). apply last_snoc. }
  rewrite bind_Ok.
  destruct (index_penultimate (l ++ [prior; recent])) as (p & Hp & ->).
  { rewrite length_app. simpl. lia. }
  assert (p = prior) as ->.
  { rewrite length_app in Hp. simpl in Hp.
    replace (length l + 2 - 2)%nat with (length l + 0)%nat in Hp by lia.
    rewrite lookup_app_r, Nat.add_0_r, Nat.sub_diag in Hp by lia.
    simpl in Hp. congruence. }
  rewrite bind_Ok. destruct (decide (prior = 0)) as [Hz|Hnz].
  - by rewrite decide_False by tauto.
  - rewrite decide_True by done.
    rewrite (div_float_Ok _ (Rabs prior)), !bind_Ok; [done|].
    by apply Rabs_no_R0.
Qed.

(** X6. [calculate_recent_delta] never raises.  With fewer than two
    entries that are not [None] both fields are [None]; otherwise the
    absolute change is the last such entry minus the one before it,
    rounded to two decimals, and the percentage change, relative to the
    absolute value of the one before, is [None] exactly when that one
    is 0. *)
Theorem calculate_recent_delta_spec (values : list (option R)) :
  ((length (clean_values values) < 2)%nat →
   calculate_recent_delta values = Ok (Delta None None))
  ∧ (∀ l prior recent,
       clean_values values = l ++ [prior; recent] →
       ∃ d, calculate_recent_delta values = Ok d
         ∧ absolute d = Some (round_float (recent - prior) 2)
         ∧ (percent d = None ↔ prior = 0)
         ∧ (prior ≠ 0 →
            percent d
            = Some (round_float ((recent - prior) / Rabs prior * 100) 2))).
Proof.
  split.
  - intros Hlen. unfold calculate_recent_delta. cbv zeta.
    by rewrite decide_True.
  - intros l prior recent Hc. eexists.
    split; [by apply (calculate_recent_delta_eq values l)|]. simpl.
    split; [done|]. destruct (decide (prior = 0)); split; done.
Qed.


(** ** Exceptions of the calculators *)


Lemma mapM_Raise {A B} (f : A → res B) (e : exn) (l : list A) :
  Forall (λ x, returns (f x) ∨ f x = Raise e) l →
  Exists (λ x, f x = Raise e) l →
  mapM f l = Raise e.
Proof.
  induction 1 as [|x l Hx Hl IH]; [by intros ?%Exists_nil|].
  intros Hex. simpl. destruct Hx as [[y Hy]|Hx].
  - rewrite Hy, bind_Ok. apply Exists_cons in Hex as [Hex|Hex]; [congruence|].
    by rewrite IH.
  - by rewrite Hx.
Qed.

Lemma date_of_cases (e : entry) (err : exn) :
  (date_is_string e ∧ date_of e err = Ok (entry_date e))
  ∨ (¬ date_is_string e ∧ date_of e err = Raise err).
Proof.
  unfold date_is_string, date_of, entry_date.
  destruct (e !! "fiscalDateEnding") as [[| s | x]|] eqn:E.
  - right. split; [|done]. intros H. by destruct (H _ eq_refl).
  - left. split; [|done]. intros v [= <-]. eauto.
  - right. split; [|done]. intros H. by destruct (H _ eq_refl).
  - left. split; [|done]. by intros v [=].
Qed.

Lemma annual_point_cases (value : entry → res (option R)) (e : entry) :
  returns (value e) →
  (date_is_string e ∧ returns (annual_point value e))
  ∨ (¬ date_is_string e ∧ annual_point value e = Raise TypeError).
Proof.
  intros [v Hv]. unfold annual_point. rewrite Hv, bind_Ok.
  destruct (date_of_cases e TypeError) as [[Hs ->]|[Hs ->]].
  - left. split; [done|]. rewrite bind_Ok.
    destruct v; [case_decide|]; by eexists.
  - right. by split.
Qed.

Global Instance date_is_string_dec (e : entry) : Decision (date_is_string e).
Proof.
  destruct (date_of e TypeError) as [s|err] eqn:E.
  - left. by apply date_of_inv in E as [? _].
  - right. intros H. by rewrite (date_of_returns _ _ H) in E.
Defined.

Lemma annual_series_raises (value : entry → res (option R))
    (entries : list entry) :
  (∀ e, returns (value e)) →
  ¬ dates_ok (take YEARS_TO_ANALYZE entries) →
  annual_series value entries = Raise TypeError.
Proof.
  intros Hv Hd. unfold annual_series.
  rewrite (mapM_Raise _ TypeError); [done|..].
  - apply Forall_forall. intros e _.
    destruct (annual_point_cases value e (Hv e)) as [[_ ?]|[_ ?]]; auto.
  - apply not_Forall_Exists in Hd; [|apply _].
    eapply Exists_impl; [exact Hd|]. intros e He. simpl in He.
    by destruct (annual_point_cases value e (Hv e)) as [[? _]|[_ ?]].
Qed.

(** X9. A period-end date that is not a string, such as a JSON [null],
    among the first five annual entries makes the revenue and the margin
    calculator raise [TypeError], and the EPS calculator too once it is
    past its checks on the quarters: the date is sliced before the entry
    is judged usable. *)
Theorem non_string_date_raises (float_of_str : string → option R)
    (current_year : string) :
  (∀ data,
     ¬ dates_ok (take YEARS_TO_ANALYZE (annualReports data)) →
     calculate_revenue_stats float_of_str current_year (Some data)
     = Raise TypeError
     ∧ calculate_margin_stats float_of_str current_year (Some data)
       = Raise TypeError)
  ∧ (∀ data q0 x,
       (2 ≤ length (quarterlyEarnings data))%nat →
       head (quarterlyEarnings data) = Some q0 →
       field float_of_str q0 "reportedEPS" = Some x →
       ¬ dates_ok (take YEARS_TO_ANALYZE (annualEarnings data)) →
       calculate_eps_stats float_of_str (Some data) = Raise TypeError).
Proof.
  split.
  - intros data Hd.
    assert (Hne : annualReports data ≠ []).
    { intros Hnil. apply Hd. rewrite Hnil. constructor. }
    split.
    + unfold calculate_revenue_stats. cbv zeta.
      rewrite decide_False by done.
      rewrite annual_series_raises; [done| |done]. intros e. by eexists.
    + unfold calculate_margin_stats. cbv zeta.
      rewrite decide_False by done.
      rewrite annual_series_raises; [done| |done].
      intros e. apply margin_of_returns.
  - intros data q0 x Hlen Hq0 Hx Hd. unfold calculate_eps_stats. cbv zeta.
    rewrite decide_False.
    2:{ intros [Hnil|?]; [|lia]. rewrite Hnil in Hlen. simpl in Hlen. lia. }
    rewrite (index_first _ _ Hq0), bind_Ok, Hx.
    destruct (eps_change_returns float_of_str (quarterlyEarnings data) x 1)
      as [c1 ->].
    destruct (eps_change_returns float_of_str (quarterlyEarnings data) x 4)
      as [c4 ->].
    rewrite !bind_Ok.
    rewrite annual_series_raises; [done| |done]. intros e. by eexists.
Qed.

Lemma non_string_date_raises_witness :
  calculate_revenue_stats parse_decimal "2024" (Some income_null_date)
  = Raise TypeError.
Proof.
  apply non_string_date_raises.
  intros Hd. apply Forall_cons in Hd as [_ Hd].
  apply Forall_cons in Hd as [Hd _].
  destruct (Hd PNone eq_refl) as [s Hs]. discriminate Hs.
Defined.

(** ** What the annual series holds *)

Lemma mapM_elem {A B} (f : A → res B) (l : list A) (k : list B) (y : B) :
  mapM f l = Ok k → y ∈ k ↔ ∃ x, x ∈ l ∧ f x = Ok y.
Proof.
  intros H%mapM_Ok. split.
  - intros [i Hi]%list_elem_of_lookup.
    destruct (Forall2_lookup_r _ _ _ _ _ H Hi) as (x & Hx & Hf).
    exists x. split; [|done]. apply list_elem_of_lookup. eauto.
  - intros (x & [i Hi]%list_elem_of_lookup & Hf).
    destruct (Forall2_lookup_l _ _ _ _ _ H Hi) as (y' & Hy & Hf').
    assert (y' = y) as -> by congruence.
    apply list_elem_of_lookup. eauto.
Qed.

Lemma annual_point_Some (value : entry → res (option R)) (e : entry)
    (y : string) (v : R) :
  annual_point value e = Ok (Some (y, v)) ↔
  value e = Ok (Some v) ∧ date_is_string e
  ∧ y = year_part (entry_date e) ∧ y ≠ "".
Proof.
  unfold annual_point. split.
  - intros H. apply bind_returns in H as (o & Ho & H).
    apply bind_returns in H as (d & Hd & H).
    apply date_of_inv in Hd as [Hs ->].
    destruct o as [x|]; [|done]. destruct (decide _) as [Hne|] in H; [|done].
    injection H as <- <-. done.
  - intros (Hv & Hs & -> & Hne).
    rewrite Hv, bind_Ok, (date_of_returns _ _ Hs), bind_Ok.
    by rewrite decide_True.
Qed.

Lemma annual_series_elem (value : entry → res (option R))
    (entries : list entry) (series : list (string * R)) (y : string) (v : R) :
  annual_series value entries = Ok series →
  (y, v) ∈ series ↔
  ∃ e, e ∈ take YEARS_TO_ANALYZE entries
       ∧ value e = Ok (Some v) ∧ date_is_string e
       ∧ y = year_part (entry_date e) ∧ y ≠ "".
Proof.
  unfold annual_series. intros H.
  apply bind_returns in H as (pts & Hpts & [= <-]).
  rewrite elem_of_reverse, list_elem_of_omap.
  split.
  - intros (o & Ho & ->). apply (mapM_elem _ _ _ _ Hpts) in Ho as (e & He & Hp).
    exists e. split; [done|]. by apply annual_point_Some.
  - intros (e & He & Hp). exists (Some (y, v)). split; [|done].
    apply (mapM_elem _ _ _ _ Hpts). exists e. split; [done|].
    by apply annual_point_Some.
Qed.

Lemma pct_Some_inv (num denom : option R) (v : R) :
  pct num denom None = Ok (Some v) ↔
  ∃ n d, num = Some n ∧ denom = Some d ∧ d ≠ 0
         ∧ v = round_float (n / d * 100) 2.
Proof.
  split.
  - unfold pct, safe_divide. destruct num as [n|], denom as [d|]; try done.
    destruct (decide (d = 0)) as [|Hd]; [done|].
    rewrite (div_float_Ok n d Hd), !bind_Ok. intros [= <-]. eauto 6.
  - intros (n & d & -> & -> & Hd & ->). by apply pct_Some.
Qed.

(** X10. The annual series of an EPS, revenue or margin record holds a
    year [y] with a value [v] exactly when one of the first five annual
    entries of the payload has a date that starts with [y], not empty, and
    gives [v]: its reported EPS, its total revenue, or, for the margin,
    its operating income over its total revenue, not 0, as a percentage
    rounded to two decimals.  Entries without a date or a value, or with a
    revenue of 0, are left out. *)
Theorem annual_values_source (float_of_str : string → option R)
    (current_year : string) :
  (∀ data r y v,
     calculate_eps_stats float_of_str (Some data) = Ok (Some r) →
     (y, v) ∈ zip (Eps.annual_years r) (Eps.annual_values r) ↔
     ∃ e, e ∈ take 5 (annualEarnings data)
          ∧ field float_of_str e "reportedEPS" = Some v
          ∧ y = year_part (entry_date e) ∧ y ≠ "")
  ∧ (∀ data r y v,
       calculate_revenue_stats float_of_str current_year (Some data)
       = Ok (Some r) →
       (y, v) ∈ zip (Revenue.annual_years r) (Revenue.annual_values r) ↔
       ∃ e, e ∈ take 5 (annualReports data)
            ∧ field float_of_str e "totalRevenue" = Some v
            ∧ y = year_part (entry_date e) ∧ y ≠ "")
  ∧ (∀ data r y v,
       calculate_margin_stats float_of_str current_year (Some data)
       = Ok (Some r) →
       (y, v) ∈ zip (Margin.annual_years r) (Margin.annual_values r) ↔
       ∃ e oi rev,
         e ∈ take 5 (annualReports data)
         ∧ field float_of_str e "operatingIncome" = Some oi
         ∧ field float_of_str e "totalRevenue" = Some rev
         ∧ rev ≠ 0
         ∧ v = round_float (oi / rev * 100) 2
         ∧ y = year_part (entry_date e) ∧ y ≠ "").
Proof.
  split; [|split].
  - intros data r y v H.
    apply eps_inv in H as (data' & series & [= <-] & _ & Hs & _ & -> & ->).
    rewrite zip_fst_snd, (annual_series_elem _ _ _ _ _ Hs). split.
    + intros (e & He & [= Hv] & _ & Hy & Hne). eauto 6.
    + intros (e & He & Hv & Hy & Hne). exists e. split; [done|].
      split; [by rewrite Hv|]. split; [|done].
      assert (Hret : returns (annual_series
        (λ e, Ok (field float_of_str e "reportedEPS")) (annualEarnings data)))
        by by eexists.
      destruct (decide (date_is_string e)) as [|Hbad]; [done|]. exfalso.
      destruct Hret as [s' Hs'].
      rewrite annual_series_raises in Hs'; [done|by eexists|].
      intros Hd. unfold dates_ok in Hd. rewrite Forall_forall in Hd.
      by apply Hbad, Hd.
  - intros data r y v H.
    apply revenue_inv in H as (data' & series & [= <-] & Hs & -> & ->).
    rewrite zip_fst_snd, (annual_series_elem _ _ _ _ _ Hs). split.
    + intros (e & He & [= Hv] & _ & Hy & Hne). eauto 6.
    + intros (e & He & Hv & Hy & Hne). exists e. split; [done|].
      split; [by rewrite Hv|]. split; [|done].
      destruct (decide (date_is_string e)) as [|Hbad]; [done|]. exfalso.
      rewrite annual_series_raises in Hs; [done|by eexists|].
      intros Hd. unfold dates_ok in Hd. rewrite Forall_forall in Hd.
      by apply Hbad, Hd.
  - intros data r y v H.
    apply margin_inv in H as (data' & series & [= <-] & Hs & -> & ->).
    rewrite zip_fst_snd, (annual_series_elem _ _ _ _ _ Hs). split.
    + intros (e & He & Hv & _ & Hy & Hne).
      apply pct_Some_inv in Hv as (oi & rev & Hoi & Hrev & Hnz & ->).
      exists e, oi, rev. done.
    + intros (e & oi & rev & He & Hoi & Hrev & Hnz & -> & Hy & Hne).
      exists e. split; [done|]. split.
      { apply pct_Some_inv. eauto 6. }
      split; [|done].
      destruct (decide (date_is_string e)) as [|Hbad]; [done|]. exfalso.
      rewrite annual_series_raises in Hs; [done|apply margin_of_returns|].
      intros Hd. unfold dates_ok in Hd. rewrite Forall_forall in Hd.
      by apply Hbad, Hd.
Qed.

(** ** The price record, further *)

Section price_fields.
Variable float_of_str : string → option R.

Lemma elem_of_monthly_closes (ts : time_series) (d : string) (c : R) :
  (d, c) ∈ monthly_closes float_of_str ts ↔
  ∃ e, ts !! d = Some e ∧ field float_of_str e "5. adjusted close" = Some c.
Proof.
  unfold monthly_closes. rewrite merge_sort_Permutation, list_elem_of_omap.
  split.
  - intros ([d' e] & Hin & Hf). apply elem_of_map_to_list in Hin. simpl in Hf.
    destruct (field float_of_str e "5. adjusted close") as [c'|] eqn:E;
      [|done].
    injection Hf as -> ->. eauto.
  - intros (e & He & Hf). exists (d, e). split.
    + by apply elem_of_map_to_list.
    + simpl. by rewrite Hf.
Qed.

Lemma price_fields (price_data : option time_series) (r : Price.stats) :
  calculate_price_stats float_of_str price_data = Ok (Some r) →
  ∃ ts, price_data = Some ts
    ∧ (2 ≤ length (monthly_closes float_of_str ts))%nat
    ∧ head (monthly_closes float_of_str ts)
      = Some (Price.current_date r, Price.current r)
    ∧ Price.months_of_data r
      = length (take 60 (monthly_closes float_of_str ts))
    ∧ Price.annual_years r
      = drop (length (sorted_keys
                        (annual_prices_of
                           (take 60 (monthly_closes float_of_str ts))
                           (year_part (Price.current_date r))
                           (Price.current r)))
              - YEARS_TO_ANALYZE)
             (sorted_keys
                (annual_prices_of (take 60 (monthly_closes float_of_str ts))
                                  (year_part (Price.current_date r))
                                  (Price.current r)))
    ∧ mapM (getitem (annual_prices_of
                       (take 60 (monthly_closes float_of_str ts))
                       (year_part (Price.current_date r)) (Price.current r)))
           (Price.annual_years r)
      = Ok (Price.annual_values r).
Proof.
  unfold calculate_price_stats. cbv zeta. intros H.
  destruct price_data as [ts|]; [|done]. exists ts. split; [done|].
  destruct (decide _) as [|Hts] in H; [done|].
  destruct (decide _) as [|Hlen] in H; [done|].
  apply bind_returns in H as (current & Hcur & H).
  apply bind_returns in H as (vs_3mo & H3 & H).
  apply bind_returns in H as (vs_yoy & Hyoy & H).
  apply bind_returns in H as (date0 & Hd0 & H).
  apply bind_returns in H as (values & Hvalues & H).
  apply bind_returns in H as (date0' & Hd0' & H).
  unchain H. injection H as <-. simpl.
  assert (date0' = date0) as -> by congruence.
  apply index_zero_inv in Hcur, Hd0.
  split; [lia|]. split.
  - destruct (monthly_closes float_of_str ts) as [|[d c] l]; [done|].
    simpl in *. congruence.
  - split; [by rewrite length_fmap|]. done.
Qed.

End price_fields.

Lemma head_desc_greatest (l : list (string * R)) (p q : string * R) :
  StronglySorted date_desc l → head l = Some p → q ∈ l → String.le q.1 p.1.
Proof.
  intros Hs Hh Hq. destruct l as [|p' l]; [done|]. injection Hh as ->.
  apply StronglySorted_inv in Hs as [_ Hall].
  apply elem_of_cons in Hq as [->|Hq]; [done|].
  rewrite Forall_forall in Hall. by apply Hall.
Qed.

(** X11. In a price record [current] is the adjusted close of the month
    with the greatest date among the months that have a valid adjusted
    close, [current_date] is that date, and [months_of_data] is the number
    of such months, capped at 60 and at least 2. *)
Theorem price_current_newest (float_of_str : string → option R)
    (price_data : option time_series) (r : Price.stats) :
  calculate_price_stats float_of_str price_data = Ok (Some r) →
  ∃ ts, price_data = Some ts
    ∧ (∃ e, ts !! Price.current_date r = Some e
            ∧ field float_of_str e "5. adjusted close"
              = Some (Price.current r))
    ∧ (∀ d e c, ts !! d = Some e →
                field float_of_str e "5. adjusted close" = Some c →
                String.le d (Price.current_date r))
    ∧ Price.months_of_data r
      = (60 `min` length (monthly_closes float_of_str ts))%nat
    ∧ (2 ≤ Price.months_of_data r ≤ 60)%nat.
Proof.
  intros H. apply price_fields in H as (ts & -> & Hlen & Hhead & Hm & _).
  exists ts. split; [done|]. split; [|split; [|split]].
  - apply elem_of_monthly_closes. by apply head_Some_elem_of.
  - intros d e c He Hc.
    apply (head_desc_greatest _ (Price.current_date r, Price.current r) (d, c)
             (monthly_closes_sorted float_of_str ts) Hhead).
    apply elem_of_monthly_closes. eauto.
  - by rewrite Hm, length_take.
  - rewrite Hm, length_take. lia.
Qed.

Lemma price_current_newest_witness :
  ∃ r, calculate_price_stats parse_decimal (Some thirteen_months) = Ok (Some r)
    ∧ ∃ ts, Some thirteen_months = Some ts
        ∧ (∃ e, ts !! Price.current_date r = Some e
                ∧ field parse_decimal e "5. adjusted close"
                  = Some (Price.current r))
        ∧ (∀ d e c, ts !! d = Some e →
                    field parse_decimal e "5. adjusted close" = Some c →
                    String.le d (Price.current_date r))
        ∧ Price.months_of_data r
          = (60 `min` length (monthly_closes parse_decimal ts))%nat
        ∧ (2 ≤ Price.months_of_data r ≤ 60)%nat.
Proof.
  destruct (price_record parse_decimal thirteen_months) as (o & Hr & r & ->).
  { vm_compute. lia. }
  exists r. split; [exact Hr|].
  exact (price_current_newest parse_decimal _ r Hr).
Defined.

(** ** December closes *)

Lemma december_fold_lookup (l : list (string * R)) (acc : gmap string R)
    (y : string) (v : R) :
  foldl (λ annual_prices p,
           if decide (month_part p.1 = "12")
           then <[year_part p.1 := p.2]> annual_prices
           else annual_prices) acc l !! y = Some v →
  acc !! y = Some v
  ∨ ∃ p, p ∈ l ∧ year_part p.1 = y ∧ month_part p.1 = "12" ∧ p.2 = v.
Proof.
  revert acc. induction l as [|p l IH]; intros acc; simpl; [by left|].
  intros H. apply IH in H as [H|(q & Hq & ?)].
  - destruct (decide (month_part p.1 = "12")) as [Hm|]; [|by left].
    destruct (decide (year_part p.1 = y)) as [Hy|Hy].
    + rewrite Hy, lookup_insert_eq in H. injection H as <-.
      right. exists p. split; [left|done].
    + rewrite lookup_insert_ne in H by done. by left.
  - right. exists q. split; [by right|done].
Qed.

Lemma december_fold_dom (l : list (string * R)) (acc : gmap string R)
    (p : string * R) :
  p ∈ l → month_part p.1 = "12" →
  is_Some (foldl (λ annual_prices p,
                    if decide (month_part p.1 = "12")
                    then <[year_part p.1 := p.2]> annual_prices
                    else annual_prices) acc l !! year_part p.1).
Proof.
  assert (Hkeep : ∀ k (a : gmap string R) y,
    is_Some (a !! y) →
    is_Some (foldl (λ annual_prices p,
                      if decide (month_part p.1 = "12")
                      then <[year_part p.1 := p.2]> annual_prices
                      else annual_prices) a k !! y)).
  { induction k as [|q k IH]; intros a y Hy; simpl; [done|]. apply IH.
    destruct (decide (month_part q.1 = "12")); [|done].
    destruct (decide (year_part q.1 = y)) as [->|Hne].
    - rewrite lookup_insert_eq. by eexists.
    - by rewrite lookup_insert_ne. }
  revert acc. induction l as [|q l IH]; intros acc Hin Hm.
  { by apply elem_of_nil in Hin. }
  simpl. apply elem_of_cons in Hin as [->|Hin].
  - apply Hkeep. rewrite decide_True by done. rewrite lookup_insert_eq.
    by eexists.
  - by apply IH.
Qed.

Lemma december_closes_lookup (monthly : list (string * R)) (y : string)
    (v : R) :
  december_closes monthly !! y = Some v →
  ∃ d, (d, v) ∈ monthly ∧ year_part d = y ∧ month_part d = "12".
Proof.
  unfold december_closes. intros [H|([d c] & Hp & Hy & Hm & Hv)]%december_fold_lookup.
  - by rewrite lookup_empty in H.
  - simpl in *. subst c. exists d. split; [|done].
    by rewrite merge_sort_Permutation in Hp.
Qed.

Lemma december_closes_dom (monthly : list (string * R)) (d : string) (c : R) :
  (d, c) ∈ monthly → month_part d = "12" →
  year_part d ∈ dom (december_closes monthly).
Proof.
  intros Hin Hm. apply elem_of_dom. unfold december_closes.
  apply (december_fold_dom _ ∅ (d, c)); [|done].
  by rewrite merge_sort_Permutation.
Qed.

Lemma mapM_getitem_zip (d : gmap string R) (keys : list string)
    (values : list R) (y : string) (v : R) :
  mapM (getitem d) keys = Ok values → (y, v) ∈ zip keys values →
  d !! y = Some v.
Proof.
  intros H%mapM_Ok. induction H as [|k x keys values Hk _ IH]; simpl.
  { by intros ?%elem_of_nil. }
  intros [[= -> ->]|Hin]%elem_of_cons; [|by apply IH].
  unfold getitem in Hk. by destruct (d !! k); simplify_eq.
Qed.

Lemma last_drop_lt {A} (n : nat) (l : list A) :
  (n < length l)%nat → last (drop n l) = last l.
Proof.
  intros Hn. rewrite !last_lookup, lookup_drop, length_drop. f_equal. lia.
Qed.

Lemma last_sorted_greatest (l : list string) (m : string) :
  StronglySorted String.le l → m ∈ l → (∀ x, x ∈ l → String.le x m) →
  last l = Some m.
Proof.
  intros Hs Hm Hmax.
  destruct (last l) as [z|] eqn:Hz.
  - f_equal. apply (anti_symm String.le).
    + apply Hmax. by apply last_Some_elem_of.
    + apply last_Some in Hz as [l' ->].
      apply StronglySorted_app in Hs as (Hlr & _ & _).
      apply elem_of_app in Hm as [Hm|Hm%list_elem_of_singleton].
      * apply Hlr; [done|]. left.
      * by subst.
  - apply last_None in Hz. subst. by apply elem_of_nil in Hm.
Qed.

(** X12. Every annual value of a price record is a December close of its
    year among the months kept, or, for the year of the newest month when
    the months kept hold no December close of that year, the newest
    close.  The last annual label is always the year of the newest
    month. *)
Theorem price_annual_december (float_of_str : string → option R)
    (price_data : option time_series) (r : Price.stats) :
  calculate_price_stats float_of_str price_data = Ok (Some r) →
  ∃ ts, price_data = Some ts
    ∧ last (Price.annual_years r) = Some (year_part (Price.current_date r))
    ∧ ∀ y v,
        (y, v) ∈ zip (Price.annual_years r) (Price.annual_values r) →
        (∃ d, (d, v) ∈ take 60 (monthly_closes float_of_str ts)
              ∧ year_part d = y ∧ month_part d = "12")
        ∨ (y = year_part (Price.current_date r) ∧ v = Price.current r
           ∧ ∀ d c, (d, c) ∈ take 60 (monthly_closes float_of_str ts) →
                    year_part d = y → month_part d ≠ "12").
Proof.
  intros H.
  apply price_fields in H as (ts & -> & Hlen & Hhead & _ & Hyears & Hvalues).
  exists ts. split; [done|].
  set (monthly := take 60 (monthly_closes float_of_str ts)) in *.
  set (cy := year_part (Price.current_date r)) in *.
  set (d := annual_prices_of monthly cy (Price.current r)) in *.
  split.
  - assert (Hcy : cy ∈ sorted_keys d).
    { apply elem_of_sorted_keys. unfold d, annual_prices_of.
      destruct (decide _) as [Hin|].
      - by apply elem_of_dom.
      - rewrite lookup_insert_eq. by eexists. }
    assert (Hmax : ∀ k, k ∈ sorted_keys d → String.le k cy).
    { intros k [v Hk]%elem_of_sorted_keys.
      assert (Hdec : december_closes monthly !! k = Some v → String.le k cy).
      { intros (dd & Hdd & <- & _)%december_closes_lookup.
        apply year_part_le.
        apply (head_desc_greatest _ (Price.current_date r, Price.current r)
                 (dd, v) (monthly_closes_sorted float_of_str ts) Hhead).
        by apply (subseteq_take 60). }
      unfold d, annual_prices_of in Hk. destruct (decide _) in Hk; [auto|].
      destruct (decide (cy = k)) as [->|Hne]; [done|].
      rewrite lookup_insert_ne in Hk by done. auto. }
    rewrite Hyears, last_drop_lt.
    + apply last_sorted_greatest; [apply sorted_keys_sorted|done..].
    + assert (0 < length (sorted_keys d))%nat; [|unfold YEARS_TO_ANALYZE; lia].
      destruct (sorted_keys d); [by apply elem_of_nil in Hcy | simpl; lia].
  - intros y v Hin.
    apply (mapM_getitem_zip _ _ _ _ _ Hvalues) in Hin.
    unfold d, annual_prices_of in Hin.
    destruct (decide _) as [|Hnot] in Hin.
    + left. by apply december_closes_lookup.
    + destruct (decide (cy = y)) as [Hy|Hy].
      * rewrite Hy, lookup_insert_eq in Hin. injection Hin as <-.
        right. split; [done|]. split; [done|].
        intros dd c Hd Hyd Hm. apply Hnot. rewrite Hy, <- Hyd.
        by eapply december_closes_dom.
      * rewrite lookup_insert_ne in Hin by done.
        left. by apply december_closes_lookup.
Qed.

Lemma price_annual_december_witness :
  ∃ r, calculate_price_stats parse_decimal (Some thirteen_months) = Ok (Some r)
    ∧ ∃ ts, Some thirteen_months = Some ts
        ∧ last (Price.annual_years r)
          = Some (year_part (Price.current_date r))
        ∧ ∀ y v,
            (y, v) ∈ zip (Price.annual_years r) (Price.annual_values r) →
            (∃ d, (d, v) ∈ take 60 (monthly_closes parse_decimal ts)
                  ∧ year_part d = y ∧ month_part d = "12")
            ∨ (y = year_part (Price.current_date r) ∧ v = Price.current r
               ∧ ∀ d c, (d, c) ∈ take 60 (monthly_closes parse_decimal ts) →
                        year_part d = y → month_part d ≠ "12").
Proof.
  destruct (price_record parse_decimal thirteen_months) as (o & Hr & r & ->).
  { vm_compute. lia. }
  exists r. split; [exact Hr|].
  exact (price_annual_december parse_decimal _ r Hr).
Defined.

(** ** The EPS record, further *)

Section eps_further.
Variable float_of_str : string → option R.



Lemma eps_change_eq (quarterly : list entry) (latest_eps : R) (k : nat) :
  eps_change float_of_str quarterly latest_eps k =
  Ok (quarter_change float_of_str quarterly latest_eps k).
Proof.
  unfold eps_change, quarter_change.
  destruct (decide (k < length quarterly)%nat) as [Hk|Hk].
  - destruct (lookup_lt_is_Some_2 _ _ Hk) as [q Hq].
    rewrite (index_Ok _ _ _ Hq), bind_Ok, Hq.
    destruct (field float_of_str q "reportedEPS") as [e|]; [|done].
    destruct (decide (e = 0)).
    + by rewrite decide_False by tauto.
    + rewrite decide_True by done.
      by rewrite pct_change_Ok, bind_Ok by (by apply Rabs_no_R0).
  - by rewrite lookup_ge_None_2 by lia.
Qed.

(** X14. In an EPS record [latest] is the reported EPS of the first
    quarter listed.  The change against the previous quarter compares it
    with the second quarter listed and the year-over-year change with the
    fifth, each as a percentage of the absolute value of the older figure
    rounded to two decimals; a change is absent when that quarter is not
    listed, has no reported EPS, or reports 0.  The TTM figure is the
    rounded sum of the first four quarters when all four report. *)
Theorem eps_quarter_changes (earnings_data : option earnings)
    (r : Eps.stats) :
  calculate_eps_stats float_of_str earnings_data = Ok (Some r) →
  ∃ data q0,
    earnings_data = Some data
    ∧ quarterlyEarnings data !! 0%nat = Some q0
    ∧ field float_of_str q0 "reportedEPS" = Some (Eps.latest r)
    ∧ Eps.latest_date r = get q0 "fiscalDateEnding"
    ∧ Eps.vs_prev_q_pct r
      = quarter_change float_of_str (quarterlyEarnings data) (Eps.latest r) 1
    ∧ Eps.vs_yoy_pct r
      = quarter_change float_of_str (quarterlyEarnings data) (Eps.latest r) 4
    ∧ (Forall (λ q, is_Some (field float_of_str q "reportedEPS"))
              (take 4 (quarterlyEarnings data)) →
       (4 ≤ length (quarterlyEarnings data))%nat →
       Eps.ttm r
       = Some (round_float
                 (sum_float
                    (clean_values
                       ((λ q, field float_of_str q "reportedEPS")
                          <$> take 4 (quarterlyEarnings data)))) 2)).
Proof.
  intros H. apply eps_fields in H
    as (data & series & q0 & bm & -> & Hq0 & Hlatest & Hdate & Httm & Hprev
        & Hyoy & _).
  exists data, q0. split; [done|]. rewrite <- head_lookup.
  split; [done|]. split; [done|]. split; [done|].
  rewrite eps_change_eq in Hprev, Hyoy.
  split; [congruence|]. split; [congruence|].
  intros Hall Hlen. rewrite Httm. unfold ttm_of.
  rewrite decide_True by done. rewrite decide_True; [done|].
  apply Forall_fmap. eapply Forall_impl; [exact Hall|].
  intros q [x Hx]. simpl. by rewrite Hx.
Qed.

End eps_further.

Lemma eps_record_example :
  ∃ r, calculate_eps_stats parse_decimal (Some earnings_without_annual)
       = Ok (Some r).
Proof.
  destruct (eps_record parse_decimal earnings_without_annual
              (quarter "2024-03-31" "1.25" "1.20") (1 * IZR 125 / 10 ^ 2) []
              (le_n 2) eq_refl eq_refl eq_refl) as (o & Hr & r & -> & _).
  eauto.
Qed.


Lemma eps_quarter_changes_witness :
  ∃ r, calculate_eps_stats parse_decimal (Some earnings_without_annual)
       = Ok (Some r)
    ∧ Eps.vs_yoy_pct r = None.
Proof.
  destruct eps_record_example as [r Hr]. exists r. split; [exact Hr|].
  destruct (eps_quarter_changes parse_decimal _ r Hr)
    as (data & q0 & [= <-] & _ & _ & _ & _ & Hyoy & _).
  exact Hyoy.
Defined.

(** ** The revenue and margin records, further *)

Lemma last_two_split {A} (l : list A) :
  (2 ≤ length l)%nat → ∃ l0 a b, l = l0 ++ [a; b].
Proof.
  intros Hlen. destruct (last_is_Some_length l) as [b Hb]; [lia|].
  apply last_Some in Hb as [l1 ->].
  rewrite length_app in Hlen. simpl in Hlen.
  destruct (last_is_Some_length l1) as [a Ha]; [lia|].
  apply last_Some in Ha as [l0 ->].
  exists l0, a, b. by rewrite <- (assoc_L (++)).
Qed.

Lemma index_last_two {A} (l0 : list A) (a b : A) :
  index (l0 ++ [a; b]) (-1) = Ok b ∧ index (l0 ++ [a; b]) (-2) = Ok a.
Proof.
  split.
  - apply index_last.
    change (l0 ++ [a; b]) with (l0 ++ [a] ++ [b]).
    rewrite (assoc_L (++)). apply last_snoc.
  - destruct (index_penultimate (l0 ++ [a; b])) as (p & Hp & ->).
    { rewrite length_app. simpl. lia. }
    rewrite length_app in Hp. simpl in Hp.
    replace (length l0 + 2 - 2)%nat with (length l0 + 0)%nat in Hp by lia.
    rewrite lookup_app_r, Nat.add_0_r, Nat.sub_diag in Hp by lia.
    simpl in Hp. congruence.
Qed.

Lemma ytd_filter_inv (current_year : string) (reports ytd : list entry) :
  ytd_filter current_year reports = Ok ytd →
  dates_ok reports
  ∧ ytd = filter (λ r, String.prefix current_year (entry_date r) = true)
                 reports.
Proof.
  unfold ytd_filter. intros H.
  apply bind_returns in H as (marks & Hm & [= <-]).
  apply mapM_Ok in Hm.
  induction Hm as [|r o reports marks Hr _ [IHd IHf]].
  { split; [constructor|done]. }
  apply bind_returns in Hr as (d & Hd & [= <-]).
  apply date_of_inv in Hd as [Hs ->].
  split; [by constructor|].
  rewrite filter_cons. csimpl.
  destruct (String.prefix current_year (entry_date r)) eqn:E.
  - rewrite decide_True by done. csimpl. by rewrite IHf.
  - rewrite decide_False by done. done.
Qed.

Section income_further.
Variable float_of_str : string → option R.
Variable current_year : string.

(** X15. In a revenue record [latest] is the last annual value and
    [latest_year] its label, of at least two.  The year-over-year change
    compares the last annual value with the one before it, as a percentage
    of the absolute value of that one rounded to two decimals, and is
    absent when that one is 0; it is the percentage of [recent_delta]. *)
Theorem revenue_headline (income_data : option income) (r : Revenue.stats) :
  calculate_revenue_stats float_of_str current_year income_data
  = Ok (Some r) →
  ∃ l0 prior,
    Revenue.annual_values r = l0 ++ [prior; Revenue.latest r]
    ∧ Revenue.latest_year r = last (Revenue.annual_years r)
    ∧ is_Some (Revenue.latest_year r)
    ∧ Revenue.years_of_data r = length (Revenue.annual_values r)
    ∧ Revenue.vs_yoy_pct r
      = (if decide (prior = 0) then None
         else Some (round_float
                      ((Revenue.latest r - prior) / Rabs prior * 100) 2))
    ∧ percent (Revenue.recent_delta r) = Revenue.vs_yoy_pct r
    ∧ absolute (Revenue.recent_delta r)
      = Some (round_float (Revenue.latest r - prior) 2).
Proof.
  unfold calculate_revenue_stats. cbv zeta. intros H.
  destruct income_data as [data|]; [|done].
  destruct (decide _) as [|Hne] in H; [done|].
  apply bind_returns in H as (series & Hs & H).
  destruct (decide _) as [|Hlen] in H; [done|].
  destruct (last_two_split series.*2) as (l0 & prior & recent & Hl); [lia|].
  destruct (index_last_two l0 prior recent) as [Hi1 Hi2].
  rewrite Hl in H. rewrite Hi1, Hi2 in H.
  rewrite (decide_True (P := (2 ≤ length (l0 ++ [prior; recent]))%nat)) in H
    by (rewrite length_app; simpl; lia).
  rewrite !bind_Ok in H.
  apply bind_returns in H as (vs_yoy & Hyoy & H).
  apply bind_returns in H as (vs_prev & Hprev & H).
  apply bind_returns in H as (ytd & Hytd & H).
  apply bind_returns in H as (ytd_ann & Hann & H).
  apply bind_returns in H as (latest_year & Hly & H).
  apply bind_returns in H as (mean & Hmean & H).
  apply bind_returns in H as (cagr & Hcagr & H).
  apply bind_returns in H as (cv & Hcv & H).
  apply bind_returns in H as (slope & Hslope & H).
  apply bind_returns in H as (rd & Hrd & H).
  unchain H. injection H as <-. simpl.
  exists l0, prior. split; [done|].
  assert (Hyears : ∃ y, last series.*1 = Some y).
  { apply last_is_Some_length.
    assert (Hlen2 := f_equal length Hl).
    rewrite length_fmap, length_app in Hlen2. simpl in Hlen2.
    rewrite length_fmap. lia. }
  destruct Hyears as [y Hy].
  assert (latest_year = Some y) as ->.
  { destruct series.*1 as [|y0 ys] eqn:E; [done|].
    rewrite (index_last _ _ Hy), bind_Ok in Hly. congruence. }
  split; [done|]. split; [by eexists|].
  split; [done|].
  assert (Hy' : vs_yoy = if decide (prior = 0) then None
                else Some (round_float ((recent - prior) / Rabs prior * 100)
                             2)).
  { destruct (decide (prior = 0)).
    - rewrite decide_False in Hyoy by tauto. congruence.
    - rewrite decide_True in Hyoy by done.
      rewrite pct_change_Ok, bind_Ok in Hyoy by (by apply Rabs_no_R0).
      congruence. }
  split; [done|].
  rewrite (calculate_recent_delta_eq _ l0 prior recent) in Hrd.
  2:{ by rewrite clean_values_Some. }
  injection Hrd as <-. simpl. by rewrite Hy'.
Qed.

(** X16. The year-to-date quarters of a revenue record are the quarterly
    reports whose date starts with the current year.  Without any the
    annualized figure is absent; otherwise it is the sum of their total
    revenues, a missing or unreadable one counting for 0, times four over
    their number. *)
Theorem revenue_ytd (income_data : option income) (r : Revenue.stats) :
  calculate_revenue_stats float_of_str current_year income_data
  = Ok (Some r) →
  ∃ data, income_data = Some data
    ∧ dates_ok (quarterlyReports data)
    ∧ Revenue.ytd_num_quarters r
      = length (filter (λ q, String.prefix current_year (entry_date q) = true)
                       (quarterlyReports data))
    ∧ (Revenue.ytd_num_quarters r = 0%nat → Revenue.ytd_annualized r = None)
    ∧ (Revenue.ytd_num_quarters r ≠ 0%nat →
       Revenue.ytd_annualized r
       = Some (sum_float
                 ((λ q, field_or_zero float_of_str q "totalRevenue")
                    <$> filter (λ q, String.prefix current_year (entry_date q)
                                     = true)
                               (quarterlyReports data))
               * (4 / INR (Revenue.ytd_num_quarters r)))).
Proof.
  unfold calculate_revenue_stats. cbv zeta. intros H.
  destruct income_data as [data|]; [|done]. exists data. split; [done|].
  destruct (decide _) as [|Hne] in H; [done|].
  apply bind_returns in H as (series & Hs & H).
  destruct (decide _) as [|Hlen] in H; [done|].
  apply bind_returns in H as (latest & Hlatest & H).
  apply bind_returns in H as (vs_yoy & Hyoy & H).
  apply bind_returns in H as (vs_prev & Hprev & H).
  apply bind_returns in H as (ytd & Hytd & H).
  apply bind_returns in H as (ytd_ann & Hann & H).
  unchain H. injection H as <-. simpl.
  apply ytd_filter_inv in Hytd as [Hd ->]. split; [done|]. split; [done|].
  set (ytd := filter _ _) in *.
  destruct ytd as [|q ytd'] eqn:E.
  - injection Hann as <-. split; [done|]. simpl. done.
  - rewrite <- E in *.
    assert (Hn : INR (length ytd) ≠ 0).
    { apply not_0_INR. rewrite E. simpl. lia. }
    rewrite (div_float_Ok 4 _ Hn), bind_Ok in Hann. injection Hann as <-.
    split; [|done]. rewrite E. simpl. lia.
Qed.

End income_further.

Lemma revenue_headline_witness :
  ∃ r, calculate_revenue_stats parse_decimal "2024" (Some income_two_years)
       = Ok (Some r)
    ∧ is_Some (Revenue.latest_year r)
    ∧ percent (Revenue.recent_delta r) = Revenue.vs_yoy_pct r.
Proof.
  destruct income_two_years_revenue as (r & Hr & _).
  exists r. split; [exact Hr|].
  destruct (revenue_headline parse_decimal "2024" _ r Hr)
    as (l0 & prior & _ & _ & Hy & _ & _ & Hp & _).
  split; [exact Hy | exact Hp].
Defined.

Lemma revenue_ytd_witness :
  ∃ r, calculate_revenue_stats parse_decimal "2024" (Some income_two_years)
       = Ok (Some r)
    ∧ Revenue.ytd_num_quarters r = 1%nat.
Proof.
  destruct income_two_years_revenue as (r & Hr & _).
  exists r. split; [exact Hr|].
  destruct (revenue_ytd parse_decimal "2024" _ r Hr)
    as (data & Hdata & _ & Hn & _).
  injection Hdata as <-. rewrite Hn. vm_compute. reflexivity.
Defined.

Section margin_further.
Variable float_of_str : string → option R.
Variable current_year : string.

(** X17. In a margin record [latest] is the last annual margin, of at
    least two, and the year-over-year change is the difference of the last
    two in percentage points rounded to two decimals, always present; it
    is the absolute change of [recent_delta].  The year-to-date margin
    divides the summed operating income of the quarters of the current
    year by their summed revenue, and is absent without such a quarter or
    with a summed revenue of 0. *)
Theorem margin_headline (income_data : option income) (r : Margin.stats) :
  calculate_margin_stats float_of_str current_year income_data
  = Ok (Some r) →
  ∃ data l0 prior,
    income_data = Some data
    ∧ Margin.annual_values r = l0 ++ [prior; Margin.latest r]
    ∧ Margin.latest_year r = last (Margin.annual_years r)
    ∧ Margin.vs_yoy_pct r = Some (round_float (Margin.latest r - prior) 2)
    ∧ absolute (Margin.recent_delta r) = Margin.vs_yoy_pct r
    ∧ Margin.ytd_num_quarters r
      = length (filter (λ q, String.prefix current_year (entry_date q) = true)
                       (quarterlyReports data))
    ∧ Margin.ytd_margin r
      = (let ytd := filter (λ q, String.prefix current_year (entry_date q)
                                 = true) (quarterlyReports data) in
         let ytd_oi := sum_float ((λ q, field_or_zero float_of_str q
                                          "operatingIncome") <$> ytd) in
         let ytd_rev := sum_float ((λ q, field_or_zero float_of_str q
                                           "totalRevenue") <$> ytd) in
         if decide (ytd = [] ∨ ytd_rev = 0) then None
         else Some (round_float (ytd_oi / ytd_rev * 100) 2)).
Proof.
  unfold calculate_margin_stats. cbv zeta. intros H.
  destruct income_data as [data|]; [|done].
  destruct (decide _) as [|Hne] in H; [done|].
  apply bind_returns in H as (series & Hs & H).
  destruct (decide _) as [|Hlen] in H; [done|].
  destruct (last_two_split series.*2) as (l0 & prior & recent & Hl); [lia|].
  destruct (index_last_two l0 prior recent) as [Hi1 Hi2].
  rewrite Hl in H. rewrite Hi1, Hi2 in H.
  rewrite (decide_True (P := (2 ≤ length (l0 ++ [prior; recent]))%nat)) in H
    by (rewrite length_app; simpl; lia).
  rewrite !bind_Ok in H.
  apply bind_returns in H as (vs_prev & Hprev & H).
  apply bind_returns in H as (ytd & Hytd & H).
  apply bind_returns in H as (ytd_margin & Hym & H).
  apply bind_returns in H as (latest_year & Hly & H).
  apply bind_returns in H as (mean & Hmean & H).
  apply bind_returns in H as (cagr & Hcagr & H).
  apply bind_returns in H as (cv & Hcv & H).
  apply bind_returns in H as (slope & Hslope & H).
  apply bind_returns in H as (rd & Hrd & H).
  unchain H. injection H as <-. simpl.
  exists data, l0, prior. split; [done|]. split; [done|].
  assert (Hyears : ∃ y, last series.*1 = Some y).
  { apply last_is_Some_length.
    assert (Hlen2 := f_equal length Hl).
    rewrite length_fmap, length_app in Hlen2. simpl in Hlen2.
    rewrite length_fmap. lia. }
  destruct Hyears as [y Hy].
  assert (latest_year = Some y) as ->.
  { destruct series.*1 as [|y0 ys] eqn:E; [done|].
    rewrite (index_last _ _ Hy), bind_Ok in Hly. congruence. }
  split; [done|]. split; [done|].
  rewrite (calculate_recent_delta_eq _ l0 prior recent) in Hrd.
  2:{ by rewrite clean_values_Some. }
  injection Hrd as <-. simpl. split; [done|].
  apply ytd_filter_inv in Hytd as [Hd ->]. split; [done|].
  set (ytd := filter _ _) in *.
  destruct ytd as [|q ytd'] eqn:E.
  - injection Hym as <-. by rewrite decide_True by auto.
  - rewrite <- E in *. unfold pct, safe_divide in Hym.
    destruct (decide (sum_float _ = 0)) as [Hz|Hnz] in Hym.
    + rewrite bind_Ok in Hym. injection Hym as <-.
      by rewrite decide_True by auto.
    + rewrite (div_float_Ok _ _ Hnz), !bind_Ok in Hym. injection Hym as <-.
      rewrite decide_False; [done|]. intros [Hnil|?]; [|done].
      rewrite E in Hnil. done.
Qed.

End margin_further.

Lemma margin_headline_witness :
  ∃ r, calculate_margin_stats parse_decimal "2024" (Some income_two_years)
       = Ok (Some r)
    ∧ is_Some (Margin.vs_yoy_pct r)
    ∧ Margin.ytd_num_quarters r = 1%nat.
Proof.
  destruct income_two_years_margin as (r & Hr & _).
  exists r. split; [exact Hr|].
  destruct (margin_headline parse_decimal "2024" _ r Hr)
    as (data & l0 & prior & Hdata & _ & _ & Hy & _ & Hn & _).
  injection Hdata as <-. split.
  - rewrite Hy. by eexists.
  - rewrite Hn. vm_compute. reflexivity.
Defined.

(** ** The annual tables of the report *)

Lemma build_annual_table_lengths (str_float : R → string)
    (years : list string) (values : list (option R)) (unit : string)
    (current_label : option string) (current_val : option R) :
  length years = length values →
  length (build_annual_table str_float years values unit
            current_label current_val).1
  = S (length (build_annual_table str_float years values unit
                 current_label current_val).2).
Proof.
  intros H. unfold build_annual_table.
  destruct current_label as [label|], current_val as [val|]; simpl;
    try (rewrite length_fmap; lia).
  destruct (decide _); simpl; rewrite ?length_app, ?length_fmap; simpl; lia.
Qed.

Lemma labelled_lengths (label : string) (table : list string * list string) :
  length table.1 = S (length table.2) →
  length (labelled label table).1 = length (labelled label table).2.
Proof. intros H. unfold labelled. simpl. rewrite length_drop. lia. Qed.

Section tables.
Variable float_of_str : string → option R.
Variable current_year : string.
Variable str_float : R → string.

(** X18. Every annual table that the report builds from a record of a
    calculator is aligned: once the report has put the row label in front,
    the header row and the data row have the same number of cells, with or
    without the column of the current value. *)
Theorem annual_tables_aligned :
  (∀ price_data r,
     calculate_price_stats float_of_str price_data = Ok (Some r) →
     length (price_annual_table str_float r).1
     = length (price_annual_table str_float r).2)
  ∧ (∀ earnings_data r,
       calculate_eps_stats float_of_str earnings_data = Ok (Some r) →
       length (eps_annual_table str_float r).1
       = length (eps_annual_table str_float r).2)
  ∧ (∀ income_data r,
       calculate_revenue_stats float_of_str current_year income_data
       = Ok (Some r) →
       length (revenue_annual_table str_float r).1
       = length (revenue_annual_table str_float r).2)
  ∧ (∀ income_data r,
       calculate_margin_stats float_of_str current_year income_data
       = Ok (Some r) →
       length (margin_annual_table str_float r).1
       = length (margin_annual_table str_float r).2)
  ∧ (∀ price_stats eps_stats r,
       calculate_pe_stats price_stats eps_stats = Ok (Some r) →
       length (pe_annual_table str_float r).1
       = length (pe_annual_table str_float r).2).
Proof.
  repeat split.
  - intros price_data r H.
    apply labelled_lengths, build_annual_table_lengths.
    apply price_inv in H as (ts & _ & _ & _ & _ & _ & _ & d & _ & Hm).
    apply mapM_length in Hm. rewrite length_fmap. lia.
  - intros earnings_data r H.
    apply labelled_lengths, build_annual_table_lengths.
    apply eps_inv in H as (data & series & _ & _ & _ & _ & -> & ->).
    by rewrite !length_fmap.
  - intros income_data r H. unfold revenue_annual_table. cbv zeta.
    apply labelled_lengths, build_annual_table_lengths.
    apply revenue_inv in H as (data & series & _ & _ & -> & ->).
    by rewrite !length_fmap.
  - intros income_data r H. unfold margin_annual_table. cbv zeta.
    apply labelled_lengths, build_annual_table_lengths.
    apply margin_inv in H as (data & series & _ & _ & -> & ->).
    by rewrite !length_fmap.
  - intros price_stats eps_stats r H.
    apply labelled_lengths, build_annual_table_lengths.
    apply pe_inv in H as (ps & es & series & _ & _ & _ & _ & -> & ->).
    by rewrite !length_fmap.
Qed.

End tables.

(** ** Estimates *)

Section estimates_properties.
Variable float_of_str : string → option R.
Variable strip : string → string.
Variable lower : string → string.

Lemma horizon_of_inv (p : Estimates.parsed) (h : string) :
  horizon_of strip lower p = Ok h → h = horizon_text strip lower p.
Proof.
  unfold horizon_of, horizon_text.
  destruct (Estimates.horizon p) as [|s|x]; [congruence..|].
  destruct (decide _); congruence.
Qed.

Lemma horizon_of_cases (p : Estimates.parsed) :
  (horizon_of strip lower p = Raise AttributeError
   ∧ ∃ x, Estimates.horizon p = PNum x ∧ x ≠ 0)
  ∨ (returns (horizon_of strip lower p)
     ∧ ¬ ∃ x, Estimates.horizon p = PNum x ∧ x ≠ 0).
Proof.
  unfold horizon_of. destruct (Estimates.horizon p) as [|s|x].
  - right. split; [by eexists|]. by intros (x & ? & _).
  - right. split; [by eexists|]. by intros (x & ? & _).
  - destruct (decide (x = 0)) as [->|Hx].
    + right. split; [by eexists|]. intros (x & Hx & Hnz).
      injection Hx as <-. done.
    + left. split; [done|]. by exists x.
Qed.

Lemma pick_horizon_cases (found : key_horizons) (p : Estimates.parsed) :
  (pick_horizon strip lower found p = Raise AttributeError
   ∧ ∃ x, Estimates.horizon p = PNum x ∧ x ≠ 0)
  ∨ (returns (pick_horizon strip lower found p)
     ∧ ¬ ∃ x, Estimates.horizon p = PNum x ∧ x ≠ 0).
Proof.
  unfold pick_horizon. destruct found as [[a1 a2] a3].
  destruct (horizon_of_cases p) as [[-> Hx]|[[h ->] Hx]].
  - by left.
  - right. split; [|done]. rewrite bind_Ok.
    repeat (destruct (decide _); [by eexists|]). by eexists.
Qed.

Lemma find_horizons_raises (parsed : list Estimates.parsed)
    (found : key_horizons) :
  Exists (λ p, ∃ x, Estimates.horizon p = PNum x ∧ x ≠ 0) parsed →
  find_horizons strip lower parsed found = Raise AttributeError.
Proof.
  revert found. induction parsed as [|p parsed IH]; intros found H.
  - by apply Exists_nil in H.
  - simpl. destruct (pick_horizon_cases found p) as [[-> _]|[[found' ->] Hp]].
    + done.
    + rewrite bind_Ok. apply IH. apply Exists_cons in H as [H|H]; done.
Qed.

Lemma find_horizons_returns (parsed : list Estimates.parsed)
    (found : key_horizons) :
  ¬ Exists (λ p, ∃ x, Estimates.horizon p = PNum x ∧ x ≠ 0) parsed →
  returns (find_horizons strip lower parsed found).
Proof.
  revert found. induction parsed as [|p parsed IH]; intros found H.
  - by eexists.
  - simpl. destruct (pick_horizon_cases found p) as [[_ Hp]|[[found' ->] _]].
    + destruct H. by left.
    + rewrite bind_Ok. apply IH. intros H'. destruct H. by right.
Qed.

Lemma Exists_parse_estimate (l : list entry) :
  Exists (λ p, ∃ x, Estimates.horizon p = PNum x ∧ x ≠ 0)
         (parse_estimate float_of_str <$> l)
  ↔ Exists numeric_horizon l.
Proof. by rewrite Exists_fmap. Qed.

Lemma consensus_deltas_eq (latest_actual : option R)
    (next_quarter : option Estimates.parsed) :
  consensus_deltas latest_actual next_quarter
  = Ok (match latest_actual, next_quarter with
        | Some a, Some q =>
            match Estimates.eps_avg q with
            | Some c =>
                if decide (c ≠ 0)
                then (Some (round_float (a - c) 4),
                      Some (round_float ((a - c) / Rabs c * 100) 2))
                else (None, None)
            | None => (None, None)
            end
        | _, _ => (None, None)
        end).
Proof.
  unfold consensus_deltas.
  destruct latest_actual as [a|], next_quarter as [q|]; try done.
  destruct (Estimates.eps_avg q) as [c|]; [|done].
  destruct (decide (c ≠ 0)) as [Hc|]; [|done].
  unfold pct_change. rewrite (div_float_Ok (a - c) (Rabs c)).
  - by rewrite bind_Ok.
  - by apply Rabs_no_R0.
Qed.

(** The calculator gives a record when there is an estimate and no
    horizon is a number other than 0. *)
Lemma estimates_record (data : estimates_payload)
    (earnings_data : option earnings) :
  estimates data ≠ [] →
  ¬ Exists numeric_horizon (estimates data) →
  ∃ r, calculate_estimates_stats float_of_str strip lower (Some data)
         earnings_data = Ok (Some r).
Proof.
  intros Hne Hnum. unfold calculate_estimates_stats. cbv zeta.
  rewrite decide_False by done.
  destruct (find_horizons_returns (parse_estimate float_of_str <$> estimates data)
              (None, None, None)) as [found ->].
  { by rewrite Exists_parse_estimate. }
  rewrite bind_Ok, consensus_deltas_eq, bind_Ok. by eexists.
Qed.

(** X19. With at least one estimate the estimates calculator raises
    [AttributeError] when the horizon of some estimate is a number other
    than 0, and returns otherwise. *)
Theorem estimates_attribute_error (data : estimates_payload)
    (earnings_data : option earnings) :
  (Exists numeric_horizon (estimates data) →
   calculate_estimates_stats float_of_str strip lower (Some data)
     earnings_data = Raise AttributeError)
  ∧ (¬ Exists numeric_horizon (estimates data) →
     returns (calculate_estimates_stats float_of_str strip lower (Some data)
                earnings_data)).
Proof.
  split.
  - intros H. unfold calculate_estimates_stats. cbv zeta.
    rewrite decide_False.
    2:{ intros Hnil. rewrite Hnil in H. by apply Exists_nil in H. }
    rewrite find_horizons_raises; [done|]. by rewrite Exists_parse_estimate.
  - intros H. destruct (decide (estimates data = [])) as [Hnil|Hne].
    + unfold calculate_estimates_stats. cbv zeta.
      rewrite decide_True by done. by eexists.
    + destruct (estimates_record data earnings_data Hne H) as [r ->].
      by eexists.
Qed.

Lemma estimates_inv (estimates_data : option estimates_payload)
    (earnings_data : option earnings) (r : Estimates.stats) :
  calculate_estimates_stats float_of_str strip lower estimates_data
    earnings_data = Ok (Some r) →
  ∃ data found,
    estimates_data = Some data
    ∧ find_horizons strip lower (parse_estimate float_of_str <$> estimates data)
        (None, None, None) = Ok found
    ∧ Estimates.all_estimates r = parse_estimate float_of_str <$> estimates data
    ∧ Estimates.next_quarter r = found.1.1
    ∧ Estimates.next_fiscal_year r = found.1.2
    ∧ Estimates.current_fiscal_year r = found.2
    ∧ Estimates.latest_actual_eps r
      = match earnings_data with
        | Some e => q0 ← head (quarterlyEarnings e);
                    field float_of_str q0 "reportedEPS"
        | None => None
        end
    ∧ consensus_deltas (Estimates.latest_actual_eps r) found.1.1
      = Ok (Estimates.delta_actual_vs_next_q r,
            Estimates.delta_actual_vs_next_q_pct r).
Proof.
  unfold calculate_estimates_stats. cbv zeta. intros H.
  destruct estimates_data as [data|]; [|done].
  destruct (decide _) as [|Hne] in H; [done|].
  apply bind_returns in H as (found & Hfound & H).
  apply bind_returns in H as (deltas & Hdeltas & H).
  injection H as <-. simpl. exists data, found.
  repeat (split; [done|]). split.
  - destruct earnings_data as [e|]; [|done].
    by destruct (quarterlyEarnings e).
  - rewrite Hdeltas. by destruct deltas.
Qed.

(** X20. In an estimates record the delta against the consensus and its
    percentage are present together: exactly when the latest quarter has a
    reported EPS and the next quarter found has a consensus other than 0.
    The delta is the difference rounded to four decimals, the percentage
    the difference over the absolute consensus rounded to two. *)
Theorem estimates_consensus_delta
    (estimates_data : option estimates_payload)
    (earnings_data : option earnings) (r : Estimates.stats) :
  calculate_estimates_stats float_of_str strip lower estimates_data
    earnings_data = Ok (Some r) →
  Estimates.latest_actual_eps r
  = match earnings_data with
    | Some e => q0 ← head (quarterlyEarnings e);
                field float_of_str q0 "reportedEPS"
    | None => None
    end
  ∧ (is_Some (Estimates.delta_actual_vs_next_q r)
     ↔ is_Some (Estimates.delta_actual_vs_next_q_pct r))
  ∧ (is_Some (Estimates.delta_actual_vs_next_q r)
     ↔ ∃ a q c, Estimates.latest_actual_eps r = Some a
                ∧ Estimates.next_quarter r = Some q
                ∧ Estimates.eps_avg q = Some c ∧ c ≠ 0)
  ∧ (∀ a q c,
       Estimates.latest_actual_eps r = Some a →
       Estimates.next_quarter r = Some q →
       Estimates.eps_avg q = Some c → c ≠ 0 →
       Estimates.delta_actual_vs_next_q r = Some (round_float (a - c) 4)
       ∧ Estimates.delta_actual_vs_next_q_pct r
         = Some (round_float ((a - c) / Rabs c * 100) 2)).
Proof.
  intros H.
  apply estimates_inv in H
    as (data & found & _ & _ & _ & Hnq & _ & _ & Hl & Hd).
  split; [done|]. clear Hl. rewrite <- Hnq in Hd. clear Hnq.
  rewrite consensus_deltas_eq in Hd. injection Hd as Hd.
  destruct (Estimates.latest_actual_eps r) as [a|],
    (Estimates.next_quarter r) as [q|].
  2-4: simplify_eq; rewrite <- !not_eq_None_Some;
       (split; [done|]); (split; [|by intros]);
       (split; [done|]); by intros (? & ? & ? & ? & ? & _).
  destruct (Estimates.eps_avg q) as [c|] eqn:Hq.
  2:{ simplify_eq. rewrite <- !not_eq_None_Some.
      split; [done|]. split; [|by intros a' q' c' _ [= <-]; rewrite Hq].
      split; [done|]. intros (? & ? & ? & _ & [= <-] & ? & _). congruence. }
  destruct (decide (c ≠ 0)) as [Hc|Hc].
  - simplify_eq. split; [by split; eexists|]. split.
    + split; [|by eexists]. intros _. by exists a, q, c.
    + intros a' q' c' [= <-] [= <-] Hq' _.
      rewrite Hq in Hq'. by injection Hq' as <-.
  - simplify_eq. rewrite <- !not_eq_None_Some.
    split; [done|]. split.
    + split; [done|]. intros (? & ? & ? & _ & [= <-] & Hq' & Hnz).
      rewrite Hq in Hq'. injection Hq' as <-. done.
    + intros a' q' c' _ [= <-] Hq' Hnz.
      rewrite Hq in Hq'. injection Hq' as <-. done.
Qed.

Lemma find_horizons_spec (l : list Estimates.parsed)
    (a1 a2 a3 r1 r2 r3 : option Estimates.parsed) :
  find_horizons strip lower l (a1, a2, a3) = Ok (r1, r2, r3) →
  r1 = from_option Some
         (head (filter (mentions strip lower "next quarter") l)) a1
  ∧ (Forall (λ p, mentions strip lower "next fiscal year" p
                  → ¬ mentions strip lower "next quarter" p) l →
     r2 = from_option Some
            (head (filter (mentions strip lower "next fiscal year") l)) a2)
  ∧ (Forall (λ p, mentions strip lower "current fiscal year" p
                  → ¬ mentions strip lower "next quarter" p
                    ∧ ¬ mentions strip lower "next fiscal year" p) l →
     r3 = from_option Some
            (head (filter (mentions strip lower "current fiscal year") l)) a3)
  ∧ (∀ p, r2 = Some p →
          a2 = Some p ∨ (p ∈ l ∧ mentions strip lower "next fiscal year" p))
  ∧ (∀ p, r3 = Some p →
          a3 = Some p
          ∨ (p ∈ l ∧ mentions strip lower "current fiscal year" p)).
Proof.
  revert a1 a2 a3. induction l as [|p l IH]; intros a1 a2 a3 H.
  - simpl in H. injection H as <- <- <-. simpl.
    split; [by destruct a1|]. split; [by destruct a2|].
    split; [by destruct a3|]. split; by left.
  - simpl in H. apply bind_returns in H as (found' & Hp & H).
    unfold pick_horizon in Hp.
    apply bind_returns in Hp as (h & Hh & Hp).
    apply horizon_of_inv in Hh as ->.
    fold (mentions strip lower "next quarter" p) in Hp.
    fold (mentions strip lower "next fiscal year" p) in Hp.
    fold (mentions strip lower "current fiscal year" p) in Hp.
    rewrite !filter_cons.
    destruct (decide (mentions strip lower "next quarter" p ∧ a1 = None))
      as [[M1 ->]|N1] in Hp.
    { injection Hp as <-. apply IH in H as (-> & H2 & H3 & H4 & H5).
      rewrite decide_True by done. simpl. split; [done|]. split.
      { intros HF. apply Forall_cons in HF as [Hp HF].
        rewrite decide_False by (intros M2; by apply Hp). auto. }
      split.
      { intros HF. apply Forall_cons in HF as [Hp HF].
        rewrite decide_False by (intros M3; destruct (Hp M3) as [Hn _]; by apply Hn). auto. }
      split.
      - intros q Hq. destruct (H4 q Hq) as [|[? ?]]; [by left|right].
        split; [by right|done].
      - intros q Hq. destruct (H5 q Hq) as [|[? ?]]; [by left|right].
        split; [by right|done]. }
    assert (from_option Some
              (head (if decide (mentions strip lower "next quarter" p)
                     then p :: filter (mentions strip lower "next quarter") l
                     else filter (mentions strip lower "next quarter") l)) a1
            = from_option Some
                (head (filter (mentions strip lower "next quarter") l)) a1)
      as E1.
    { destruct a1; [done|]. rewrite decide_False; [done|]. intros M1.
      by apply N1. }
    rewrite E1. clear E1.
    destruct (decide (mentions strip lower "next fiscal year" p ∧ a2 = None))
      as [[M2 ->]|N2] in Hp.
    { injection Hp as <-. apply IH in H as (-> & H2 & H3 & H4 & H5).
      rewrite (decide_True (P := mentions strip lower "next fiscal year" p))
        by done.
      simpl. split; [done|]. split.
      { intros HF. apply Forall_cons in HF as [Hp HF]. auto. }
      split.
      { intros HF. apply Forall_cons in HF as [Hp HF].
        rewrite decide_False by (intros M3; destruct (Hp M3) as [_ Hn]; by apply Hn). auto. }
      split.
      - intros q Hq. right. destruct (H4 q Hq) as [[= <-]|[? ?]].
        + split; [by left|done].
        + split; [by right|done].
      - intros q Hq. destruct (H5 q Hq) as [|[? ?]]; [by left|right].
        split; [by right|done]. }
    assert (from_option Some
              (head (if decide (mentions strip lower "next fiscal year" p)
                     then p :: filter (mentions strip lower "next fiscal year") l
                     else filter (mentions strip lower "next fiscal year") l))
              a2
            = from_option Some
                (head (filter (mentions strip lower "next fiscal year") l)) a2)
      as E2.
    { destruct a2; [done|]. rewrite decide_False; [done|]. intros M2.
      by apply N2. }
    rewrite E2. clear E2.
    destruct (decide (mentions strip lower "current fiscal year" p
                      ∧ a3 = None)) as [[M3 ->]|N3] in Hp.
    { injection Hp as <-. apply IH in H as (-> & H2 & H3 & H4 & H5).
      rewrite (decide_True (P := mentions strip lower "current fiscal year" p))
        by done.
      simpl. split; [done|]. split.
      { intros HF. apply Forall_cons in HF as [Hp HF]. auto. }
      split.
      { intros HF. apply Forall_cons in HF as [Hp HF]. auto. }
      split.
      - intros q Hq. destruct (H4 q Hq) as [|[? ?]]; [by left|right].
        split; [by right|done].
      - intros q Hq. right. destruct (H5 q Hq) as [[= <-]|[? ?]].
        + split; [by left|done].
        + split; [by right|done]. }
    assert (from_option Some
              (head (if decide (mentions strip lower "current fiscal year" p)
                     then p :: filter
                                 (mentions strip lower "current fiscal year") l
                     else filter (mentions strip lower "current fiscal year") l))
              a3
            = from_option Some
                (head (filter (mentions strip lower "current fiscal year") l))
                a3)
      as E3.
    { destruct a3; [done|]. rewrite decide_False; [done|]. intros M3.
      by apply N3. }
    rewrite E3. clear E3.
    injection Hp as <-. apply IH in H as (-> & H2 & H3 & H4 & H5).
    split; [done|]. split.
    { intros HF. apply Forall_cons in HF as [Hp HF]. auto. }
    split.
    { intros HF. apply Forall_cons in HF as [Hp HF]. auto. }
    split.
    + intros q Hq. destruct (H4 q Hq) as [|[? ?]]; [by left|right].
      split; [by right|done].
    + intros q Hq. destruct (H5 q Hq) as [|[? ?]]; [by left|right].
      split; [by right|done].
Qed.

(** X21. In an estimates record [all_estimates] holds the estimates of
    the payload in their order, and the next quarter is the first of them
    whose horizon, stripped and in lower case, contains "next quarter".
    The next and the current fiscal year are estimates whose horizon
    contains their phrase; each is the first such estimate when no horizon
    with its phrase also contains a phrase tested before it. *)
Theorem estimates_key_horizons
    (estimates_data : option estimates_payload)
    (earnings_data : option earnings) (r : Estimates.stats) :
  calculate_estimates_stats float_of_str strip lower estimates_data
    earnings_data = Ok (Some r) →
  (∃ data, estimates_data = Some data
           ∧ Estimates.all_estimates r
             = parse_estimate float_of_str <$> estimates data)
  ∧ Estimates.next_quarter r
    = head (filter (mentions strip lower "next quarter")
                   (Estimates.all_estimates r))
  ∧ (∀ p, Estimates.next_fiscal_year r = Some p →
          p ∈ Estimates.all_estimates r
          ∧ mentions strip lower "next fiscal year" p)
  ∧ (∀ p, Estimates.current_fiscal_year r = Some p →
          p ∈ Estimates.all_estimates r
          ∧ mentions strip lower "current fiscal year" p)
  ∧ (Forall (λ p, mentions strip lower "next fiscal year" p
                  → ¬ mentions strip lower "next quarter" p)
            (Estimates.all_estimates r) →
     Estimates.next_fiscal_year r
     = head (filter (mentions strip lower "next fiscal year")
                    (Estimates.all_estimates r)))
  ∧ (Forall (λ p, mentions strip lower "current fiscal year" p
                  → ¬ mentions strip lower "next quarter" p
                    ∧ ¬ mentions strip lower "next fiscal year" p)
            (Estimates.all_estimates r) →
     Estimates.current_fiscal_year r
     = head (filter (mentions strip lower "current fiscal year")
                    (Estimates.all_estimates r))).
Proof.
  intros H.
  apply estimates_inv in H
    as (data & [[r1 r2] r3] & -> & Hf & -> & -> & -> & -> & _ & _).
  simpl. apply find_horizons_spec in Hf as (H1 & H2 & H3 & H4 & H5).
  simpl in *. split; [by eexists|]. split; [done|]. split.
  { intros p Hp. by destruct (H4 p Hp). }
  split.
  { intros p Hp. by destruct (H5 p Hp). }
  split; done.
Qed.

End estimates_properties.

Lemma estimates_three_horizons_record :
  ∃ r, calculate_estimates_stats parse_decimal ascii_strip ascii_lower
         (Some estimates_three_horizons) (Some earnings_without_annual)
       = Ok (Some r).
Proof.
  apply estimates_record; [done|].
  intros H. unfold estimates_three_horizons in H. simpl in H.
  repeat (apply Exists_cons in H as [(x & Hx & _)|H];
          [by vm_compute in Hx|]).
  by apply Exists_nil in H.
Qed.

Lemma estimates_consensus_delta_witness :
  ∃ r, calculate_estimates_stats parse_decimal ascii_strip ascii_lower
         (Some estimates_three_horizons) (Some earnings_without_annual)
       = Ok (Some r)
    ∧ (is_Some (Estimates.delta_actual_vs_next_q r)
       ↔ is_Some (Estimates.delta_actual_vs_next_q_pct r)).
Proof.
  destruct estimates_three_horizons_record as [r Hr].
  exists r. split; [exact Hr|].
  destruct (estimates_consensus_delta parse_decimal ascii_strip ascii_lower
              _ _ r Hr) as (_ & H & _).
  exact H.
Defined.

Lemma estimates_key_horizons_witness :
  ∃ r, calculate_estimates_stats parse_decimal ascii_strip ascii_lower
         (Some estimates_three_horizons) (Some earnings_without_annual)
       = Ok (Some r)
    ∧ Estimates.next_quarter r
      = head (filter (mentions ascii_strip ascii_lower "next quarter")
                     (Estimates.all_estimates r)).
Proof.
  destruct estimates_three_horizons_record as [r Hr].
  exists r. split; [exact Hr|].
  destruct (estimates_key_horizons parse_decimal ascii_strip ascii_lower
              _ _ r Hr) as (_ & H & _).
  exact H.
Defined.

(** ** The comparisons of the P/E record *)

(** X22. In a P/E record the mean is the rounded mean of the annual
    ratios, absent without a year.  The trailing ratio is compared with
    the mean when both are present and not 0, and the last annual ratio
    with the one before it when that is not 0: each as a percentage of the
    signed reference value, not of its absolute value, rounded to two
    decimals. *)
Theorem pe_comparisons (price_stats : option Price.stats)
    (eps_stats : option Eps.stats) (r : Pe.stats) :
  calculate_pe_stats price_stats eps_stats = Ok (Some r) →
  Pe.years_of_data r = length (Pe.annual_values r)
  ∧ Pe.mean_5yr r
    = match Pe.annual_values r with
      | [] => None
      | _ => Some (round_float (mean_of (Pe.annual_values r)) 2)
      end
  ∧ Pe.vs_5yr_avg_pct r
    = match Pe.trailing_pe r, Pe.mean_5yr r with
      | Some t, Some m =>
          if decide (t ≠ 0 ∧ m ≠ 0)
          then Some (round_float ((t - m) / m * 100) 2)
          else None
      | _, _ => None
      end
  ∧ ((length (Pe.annual_values r) < 2)%nat → Pe.vs_yoy_pct r = None)
  ∧ (∀ l0 prior recent,
       Pe.annual_values r = l0 ++ [prior; recent] →
       Pe.vs_yoy_pct r
       = if decide (prior ≠ 0)
         then Some (round_float ((recent - prior) / prior * 100) 2)
         else None).
Proof.
  intros H. unfold calculate_pe_stats in H. cbv zeta in H.
  destruct price_stats as [ps|], eps_stats as [es|]; try done.
  apply bind_returns in H as (tp & Htp & H).
  apply bind_returns in H as (series & Hs & H).
  apply bind_returns in H as (mean & Hmean & H).
  apply bind_returns in H as (vs5 & H5 & H).
  apply bind_returns in H as (vsy & Hy & H).
  unchain H. injection H as <-. simpl.
  split; [done|]. split.
  { destruct series.*2 as [|x l] eqn:E; [by injection Hmean as <-|].
    unfold calculate_avg in Hmean. rewrite clean_values_Some in Hmean.
    cbv zeta in Hmean. cbv iota in Hmean.
    rewrite (div_float_Ok (sum_float (x :: l)) (INR (length (x :: l))))
      in Hmean.
    2:{ apply not_0_INR. simpl. lia. }
    rewrite bind_Ok in Hmean. by injection Hmean as <-. }
  split.
  { destruct tp as [t|], mean as [m|]; try (by injection H5 as <-).
    destruct (decide (t ≠ 0 ∧ m ≠ 0 ∧ m ≠ 0)) as [(Ht & Hm & _)|Hn] in H5.
    - unfold pct_change in H5.
      rewrite (div_float_Ok (t - m) m) in H5 by done.
      rewrite !bind_Ok in H5. injection H5 as <-.
      by rewrite decide_True.
    - injection H5 as <-. rewrite decide_False; [done|].
      intros [Ht Hm]. by apply Hn. }
  split.
  { intros Hlt.
    rewrite (decide_False (P := (2 ≤ length series.*2)%nat)) in Hy by lia.
    by injection Hy as <-. }
  intros l0 prior recent Hl. rewrite Hl in Hy.
  rewrite (decide_True (P := (2 ≤ length (l0 ++ [prior; recent]))%nat)) in Hy
    by (rewrite length_app; simpl; lia).
  destruct (index_last_two l0 prior recent) as [Hi1 Hi2].
  rewrite Hi2, bind_Ok in Hy.
  destruct (decide (prior ≠ 0)) as [Hp|Hp]; [|by injection Hy as <-].
  rewrite Hi1, bind_Ok in Hy. unfold pct_change in Hy.
  rewrite (div_float_Ok (recent - prior) prior) in Hy by done.
  rewrite !bind_Ok in Hy. by injection Hy as <-.
Qed.

Lemma pe_comparisons_witness :
  ∃ r, calculate_pe_stats
         (Some (price_record_of 130 ["2021"; "2022"] [150; 130]))
         (Some (eps_record_of 5 None ["2021"; "2022"] [5; 4]))
       = Ok (Some r)
    ∧ Pe.years_of_data r = length (Pe.annual_values r).
Proof.
  destruct (pe_record (price_record_of 130 ["2021"; "2022"] [150; 130])
              (eps_record_of 5 None ["2021"; "2022"] [5; 4]))
    as (o & Ho & r & ->).
  exists r. split; [exact Ho|].
  destruct (pe_comparisons _ _ r Ho) as (H & _).
  exact H.
Defined.
